(** * bear::visual::text_layout — line metrics

    A shallow embedding of [core/src/visual/code/text_layout.cpp] and the
    properties of its three queries: [compute_line_width],
    [compute_line_left] and [compute_line_height_above_baseline]. *)

From Stdlib Require Import ZArith List String Ascii Bool Arith Lia.
Import ListNotations.

Local Open Scope Z_scope.

(** ** Outcomes of a call

    A call either returns a value or leaves through one of three doors: the
    loop budget of the model is spent, [m_text] is indexed outside its
    bounds, or a [CLAW_POSTCOND] does not hold. *)

Inductive failure : Type :=
| out_of_fuel
| out_of_range
| postcond_violation.

Inductive outcome (A : Type) : Type :=
| Ok (a : A)
| Fail (e : failure).

Arguments Ok {A} a.
Arguments Fail {A} e.

Definition bind {A B : Type} (m : outcome A) (k : A -> outcome B) : outcome B :=
  match m with
  | Ok a => k a
  | Fail e => Fail e
  end.

Notation "x <- m ;; k" := (bind m (fun x => k))
  (at level 61, m at next level, right associativity).

(** [CLAW_POSTCOND( b )]. *)
Definition CLAW_POSTCOND (b : bool) : outcome unit :=
  if b then Ok tt else Fail postcond_violation.

(** ** Loops

    A [while] loop whose body may [break].  [fuel] bounds the number of
    evaluations of the loop condition. *)

Inductive flow (St : Type) : Type :=
| Next (s : St)
| Break (s : St).

Arguments Next {St} s.
Arguments Break {St} s.

Fixpoint while {St : Type} (fuel : nat) (cond : St -> outcome bool)
  (body : St -> outcome (flow St)) (s : St) : outcome St :=
  match fuel with
  | O => Fail out_of_fuel
  | S fuel' =>
      c <- cond s ;;
      if c : bool then
        f <- body s ;;
        match f with
        | Next s' => while fuel' cond body s'
        | Break s' => Ok s'
        end
      else Ok s
  end.

(** ** Data model *)

Module claw.
(** [claw::math::coordinate_2d]. *)
Record coordinate_2d : Type := mk { x : Z; y : Z }.
End claw.

(** Modelled from the spec: [coordinate_type] and [size_type] are declared in
    [visual/types.hpp], which is not among the sources.  The spec asks for a
    single numeric type, with truncation toward zero as the reference
    behaviour of the division in the centred offset; they are the integers,
    and [/=] is [Z.quot]. *)
Definition coordinate_type : Type := Z.
Definition size_type : Type := Z.
Definition size_box_type : Type := claw.coordinate_2d.

(** Modelled from the spec: the font capability ([visual/font.hpp],
    [glyph_metrics], [sprite]) is consumed, not implemented, by the layout:
    per character, an advance, a bearing and a sprite height. *)
Record glyph_metrics : Type :=
  { get_advance : claw.coordinate_2d;
    get_bearing : claw.coordinate_2d }.

Record sprite : Type := { height : size_type }.

Record font : Type :=
  { get_metrics : ascii -> glyph_metrics;
    get_sprite : ascii -> sprite }.

Module text_align.
Inductive horizontal_align : Type :=
| align_left
| align_center
| align_right.
End text_align.

Record text_layout : Type :=
  { m_size : size_box_type;
    m_text : string;
    m_font : font;
    m_horizontal_align : text_align.horizontal_align }.

Definition space : ascii := " "%char.
Definition newline : ascii := "010"%char.

(** [std::string::find_first_not_of( c, pos )]; [None] is [npos]. *)
Fixpoint find_first_not_of (s : string) (c : ascii) (pos : nat) : option nat :=
  match s with
  | EmptyString => None
  | String a s' =>
      match pos with
      | O =>
          if Ascii.eqb a c then option_map S (find_first_not_of s' c O)
          else Some O
      | S pos' => option_map S (find_first_not_of s' c pos')
      end
  end.

(** [m_text[i]]. *)
Definition char_at (t : text_layout) (i : nat) : outcome ascii :=
  match String.get i (m_text t) with
  | Some c => Ok c
  | None => Fail out_of_range
  end.

(** The horizontal advance of a character in the font of the layout. *)
Definition advance_x (t : text_layout) (c : ascii) : size_type :=
  claw.x (get_advance (get_metrics (m_font t) c)).

(** The line begins on the first non space character. *)
Definition skip_spaces (t : text_layout) (first : nat) : nat :=
  match find_first_not_of (m_text t) space first with
  | Some i => i
  | None => String.length (m_text t)
  end.

(** ** compute_line_width *)

Module Width.
(** The local variables of [compute_line_width]. *)
Record locals : Type :=
  mk { last : nat;
       result : size_type;
       candidate_length : size_type;
       width : size_type;
       last_space_sequence : option nat }.
End Width.

(** [(last != text_length) && (m_text[last] != '\n')] *)
Definition width_cond (t : text_layout) (text_length : nat) (s : Width.locals)
  : outcome bool :=
  if Nat.eqb (Width.last s) text_length then Ok false
  else
    c <- char_at t (Width.last s) ;;
    Ok (negb (Ascii.eqb c newline)).

(** The bookkeeping of the space sequences at the head of the loop body. *)
Definition note_space (c : ascii) (s : Width.locals) : Width.locals :=
  if Ascii.eqb c space then
    match Width.last_space_sequence s with
    | None =>
        Width.mk (Width.last s) (Width.candidate_length s)
          (Width.candidate_length s) (Width.width s) (Some (Width.last s))
    | Some _ => s
    end
  else
    Width.mk (Width.last s) (Width.result s) (Width.candidate_length s)
      (Width.width s) None.

Definition width_body (t : text_layout) (s : Width.locals)
  : outcome (flow Width.locals) :=
  c <- char_at t (Width.last s) ;;
  let s1 := note_space c s in
  let w := advance_x t c in
  let s2 :=
    Width.mk (Width.last s1) (Width.result s1) (Width.candidate_length s1) w
      (Width.last_space_sequence s1) in
  if Width.candidate_length s2 + w >? claw.x (m_size t) then Ok (Break s2)
  else
    Ok (Next (Width.mk (S (Width.last s2)) (Width.result s2)
                (Width.candidate_length s2 + w) w
                (Width.last_space_sequence s2))).

(** The adjustment of the result after the loop: "if we stopped in the middle
    of a word or at the end of the line, then we must adjust the result from
    the candidate length". *)
Definition width_adjust (t : text_layout) (text_length : nat)
  (s : Width.locals) : outcome size_type :=
  match Width.last_space_sequence s with
  | None =>
      if Nat.eqb (Width.last s) text_length then Ok (Width.candidate_length s)
      else
        c <- char_at t (Width.last s) ;;
        if Ascii.eqb c newline then Ok (Width.candidate_length s)
        else if Width.result s =? 0 then Ok (Width.candidate_length s)
        else Ok (Width.result s)
  | Some _ => Ok (Width.result s)
  end.

Definition compute_line_width_fuel (fuel : nat) (t : text_layout) (first : nat)
  : outcome size_type :=
  let text_length := String.length (m_text t) in
  let first := skip_spaces t first in
  s <- while fuel (width_cond t text_length) (width_body t)
         (Width.mk first 0 0 0 None) ;;
  result <- width_adjust t text_length s ;;
  _ <- CLAW_POSTCOND (result >=? 0) ;;
  _ <- CLAW_POSTCOND (result <=? claw.x (m_size t)) ;;
  Ok result.

(** Every pass through the loop moves [last] forward, so the length of the
    text, and two more, is budget enough. *)
Definition enough_fuel (t : text_layout) : nat :=
  S (S (String.length (m_text t))).

Definition compute_line_width (t : text_layout) (first : nat)
  : outcome size_type :=
  compute_line_width_fuel (enough_fuel t) t first.

(** ** compute_line_left *)

Definition compute_line_left_fuel (fuel : nat) (t : text_layout) (first : nat)
  : outcome coordinate_type :=
  match m_horizontal_align t with
  | text_align.align_left => Ok 0
  | align =>
      line_width <- compute_line_width_fuel fuel t first ;;
      (* The remaining space on the line. *)
      let result := claw.x (m_size t) - line_width in
      match align with
      | text_align.align_center => Ok (Z.quot result 2)
      | _ => Ok result
      end
  end.

Definition compute_line_left (t : text_layout) (first : nat)
  : outcome coordinate_type :=
  compute_line_left_fuel (enough_fuel t) t first.

(** ** compute_line_height_above_baseline *)

Module Height.
(** The local variables of [compute_line_height_above_baseline]. *)
Record locals : Type :=
  mk { first : nat;
       result : size_type;
       line_width : size_type;
       stop : bool }.
End Height.

Definition height_cond (s : Height.locals) : outcome bool :=
  Ok (negb (Height.stop s)).

Definition height_body (t : text_layout) (s : Height.locals)
  : outcome (flow Height.locals) :=
  let stopped :=
    Height.mk (Height.first s) (Height.result s) (Height.line_width s) true in
  if Nat.eqb (Height.first s) (String.length (m_text t)) then Ok (Next stopped)
  else
    c <- char_at t (Height.first s) ;;
    if Ascii.eqb c newline then Ok (Next stopped)
    else
      let m := get_metrics (m_font t) c in
      let line_width := Height.line_width s + claw.x (get_advance m) in
      if line_width >? claw.x (m_size t) then
        Ok (Next (Height.mk (Height.first s) (Height.result s) line_width true))
      else
        Ok (Next (Height.mk (S (Height.first s))
                    (Z.max (Height.result s)
                       (height (get_sprite (m_font t) c)
                        + claw.y (get_bearing m)))
                    line_width false)).

Definition compute_line_height_above_baseline_fuel (fuel : nat)
  (t : text_layout) (first : nat) : outcome size_type :=
  let first := skip_spaces t first in
  s <- while fuel height_cond (height_body t) (Height.mk first 0 0 false) ;;
  Ok (Height.result s).

Definition compute_line_height_above_baseline (t : text_layout) (first : nat)
  : outcome size_type :=
  compute_line_height_above_baseline_fuel (enough_fuel t) t first.

(** ** Sample layouts *)

Definition metrics_of (advance ascent : Z) : glyph_metrics :=
  {| get_advance := claw.mk advance 0; get_bearing := claw.mk 0 ascent |}.

(** Every character advances by 10 and rises 12 above the baseline. *)
Definition plain_font : font :=
  {| get_metrics := fun _ => metrics_of 10 12;
     get_sprite := fun _ => {| height := 0 |} |}.

Definition layout (f : font) (text : string) (box_width : Z)
  (h : text_align.horizontal_align) : text_layout :=
  {| m_size := claw.mk box_width 100;
     m_text := text;
     m_font := f;
     m_horizontal_align := h |}.

(** A font whose [tall] character rises 100 above the baseline; every
    character advances by 10. *)
Definition font_with_tall (tall : ascii) : font :=
  {| get_metrics := fun _ => metrics_of 10 0;
     get_sprite :=
       fun c => {| height := if Ascii.eqb c tall then 100 else 12 |} |}.

(** A font in which the glyph of [thin] has no advance, as the glyph of a
    character with no width does; every other character advances by 10. *)
Definition font_with_thin (thin : ascii) : font :=
  {| get_metrics :=
       fun c => metrics_of (if Ascii.eqb c thin then 0 else 10) 12;
     get_sprite := fun _ => {| height := 0 |} |}.

(** A font whose [wide] character advances by 30, the others by 0. *)
Definition font_with_wide (wide : ascii) : font :=
  {| get_metrics :=
       fun c => metrics_of (if Ascii.eqb c wide then 30 else 0) 12;
     get_sprite := fun _ => {| height := 0 |} |}.

(** ** Vocabulary of the statements *)

(** The characters of the text. *)
Definition chars (t : text_layout) : list ascii :=
  list_ascii_of_string (m_text t).

(** The box is well formed and no glyph steps backwards. *)
Definition box_nonneg (t : text_layout) : Prop := 0 <= claw.x (m_size t).

Definition advances_nonneg (t : text_layout) : Prop :=
  forall c, 0 <= advance_x t c.

(** The sum of the advances of a run of characters. *)
Definition advance_sum (t : text_layout) (l : list ascii) : Z :=
  fold_right (fun c acc => advance_x t c + acc) 0 l.

(** What a glyph needs above the baseline, and the tallest glyph of a run
    of characters, 0 for none. *)
Definition glyph_ascent (t : text_layout) (c : ascii) : Z :=
  height (get_sprite (m_font t) c)
  + claw.y (get_bearing (get_metrics (m_font t) c)).

Definition ascent_max (t : text_layout) (l : list ascii) : Z :=
  fold_left (fun acc c => Z.max acc (glyph_ascent t c)) l 0.

Definition is_space (c : ascii) : Prop := c = space.
Definition not_space (c : ascii) : Prop := c <> space.
Definition not_newline (c : ascii) : Prop := c <> newline.

(** A hard break: the end of the text or a newline. *)
Definition hard_break (tail : list ascii) : Prop :=
  tail = [] \/ exists rest, tail = newline :: rest.

(** Where a line may begin: not on a space. *)
Definition line_start (tail : list ascii) : Prop :=
  tail = [] \/ exists c rest, tail = c :: rest /\ c <> space.

(** A run of characters with a word at its head, and at its end. *)
Definition begins_with_word (l : list ascii) : Prop :=
  forall c rest, l = c :: rest -> c <> space.

Definition ends_with_word (l : list ascii) : Prop :=
  forall front c, l = front ++ [c] -> c <> space.

(** One pass of the loop of [compute_line_width] over the character [c] that
    does not leave the loop. *)
Definition absorb (t : text_layout) (s : Width.locals) (c : ascii)
  : Width.locals :=
  let s1 := note_space c s in
  Width.mk (S (Width.last s1)) (Width.result s1)
    (Width.candidate_length s1 + advance_x t c) (advance_x t c)
    (Width.last_space_sequence s1).

(** The pass over [c] that leaves the loop through [break]. *)
Definition overflow_at (t : text_layout) (s : Width.locals) (c : ascii)
  : Width.locals :=
  let s1 := note_space c s in
  Width.mk (Width.last s1) (Width.result s1) (Width.candidate_length s1)
    (advance_x t c) (Width.last_space_sequence s1).

(** Starting from the candidate length [cand], every character of [l] fits
    in the box when its turn comes. *)
Fixpoint fits (t : text_layout) (cand : Z) (l : list ascii) : Prop :=
  match l with
  | [] => True
  | c :: l' =>
      cand + advance_x t c <= claw.x (m_size t)
      /\ fits t (cand + advance_x t c) l'
  end.

(** One pass of the loop of [compute_line_height_above_baseline] over a
    character that fits. *)
Definition rise (t : text_layout) (s : Height.locals) (c : ascii)
  : Height.locals :=
  Height.mk (S (Height.first s))
    (Z.max (Height.result s)
       (height (get_sprite (m_font t) c)
        + claw.y (get_bearing (get_metrics (m_font t) c))))
    (Height.line_width s + advance_x t c) false.

(** What the loop of [compute_line_width] keeps true when the box is well
    formed and no advance is negative. *)
Definition width_inv (t : text_layout) (s : Width.locals) : Prop :=
  (Width.last s <= String.length (m_text t))%nat
  /\ 0 <= Width.result s <= claw.x (m_size t)
  /\ 0 <= Width.candidate_length s <= claw.x (m_size t).

(** What the loop of [compute_line_height_above_baseline] keeps true, and
    the quantity that every pass decreases. *)
Definition height_inv (t : text_layout) (s : Height.locals) : Prop :=
  (Height.first s <= String.length (m_text t))%nat.

Definition height_variant (t : text_layout) (s : Height.locals) : nat :=
  if Height.stop s then O
  else S (String.length (m_text t) - Height.first s).

(** ** The scans as recursions on the characters that remain *)

(** The characters that remain once the spaces at the head are dropped. *)
Fixpoint drop_spaces (l : list ascii) : list ascii :=
  match l with
  | [] => []
  | c :: l' => if Ascii.eqb c space then drop_spaces l' else l
  end.

(** The loop of [compute_line_width] and the adjustment behind it, read on
    the characters [rest] from [last] on: [result] and [cand] are the locals
    [result] and [candidate_length], [in_sequence] tells whether
    [last_space_sequence] is set. *)
Fixpoint width_of_rest (t : text_layout) (rest : list ascii)
  (result cand : Z) (in_sequence : bool) : Z :=
  match rest with
  | [] => if in_sequence then result else cand
  | c :: rest' =>
      if Ascii.eqb c newline then if in_sequence then result else cand
      else
        let result' :=
          if Ascii.eqb c space then if in_sequence then result else cand
          else result in
        let in_sequence' := Ascii.eqb c space in
        if cand + advance_x t c >? claw.x (m_size t) then
          if in_sequence' then result'
          else if result' =? 0 then cand else result'
        else width_of_rest t rest' result' (cand + advance_x t c) in_sequence'
  end.

(** The loop of [compute_line_height_above_baseline], read on the characters
    [rest] from [first] on. *)
Fixpoint height_of_rest (t : text_layout) (rest : list ascii)
  (result line_width : Z) : Z :=
  match rest with
  | [] => result
  | c :: rest' =>
      if Ascii.eqb c newline then result
      else if line_width + advance_x t c >? claw.x (m_size t) then result
      else
        height_of_rest t rest' (Z.max result (glyph_ascent t c))
          (line_width + advance_x t c)
  end.

(** The two postconditions of [compute_line_width]. *)
Definition checked_width (t : text_layout) (r : Z) : outcome Z :=
  _ <- CLAW_POSTCOND (r >=? 0) ;;
  _ <- CLAW_POSTCOND (r <=? claw.x (m_size t)) ;;
  Ok r.

(** The text from the character on which the line of [start] begins. *)
Definition line_from (t : text_layout) (start : nat) : list ascii :=
  skipn (skip_spaces t start) (chars t).

(** * Properties *)

Example sample_exact_fit :
  compute_line_width (layout plain_font "ab" 20 text_align.align_left) 0 = Ok 20.
Proof. reflexivity. Qed.

Example sample_word_break :
  compute_line_width (layout plain_font "ab cde" 25 text_align.align_left) 0
  = Ok 20.
Proof. reflexivity. Qed.

Example sample_mid_word :
  compute_line_width (layout plain_font "abcdef" 25 text_align.align_left) 0
  = Ok 20.
Proof. reflexivity. Qed.

Example sample_centered :
  compute_line_left (layout plain_font "ab cde" 25 text_align.align_center) 0
  = Ok 2.
Proof. reflexivity. Qed.

Example sample_trailing_spaces :
  compute_line_width (layout plain_font "ab  " 100 text_align.align_left) 0
  = Ok 20.
Proof. reflexivity. Qed.

Example sample_ascent_plain :
  compute_line_height_above_baseline
    (layout plain_font "ab cde" 25 text_align.align_left) 0 = Ok 12.
Proof. reflexivity. Qed.

(** ** The text as a list of characters *)

Lemma get_nth_error (s : string) (i : nat) :
  String.get i s = nth_error (list_ascii_of_string s) i.
Proof.
  revert i. induction s as [|a s IH]; intros [|i]; simpl; auto.
Qed.

Lemma length_chars (t : text_layout) :
  List.length (chars t) = String.length (m_text t).
Proof.
  unfold chars. induction (m_text t); simpl; congruence.
Qed.

Lemma char_at_middle (t : text_layout) (pre post : list ascii) (c : ascii) :
  chars t = pre ++ c :: post -> char_at t (List.length pre) = Ok c.
Proof.
  intros H. unfold char_at. rewrite get_nth_error. fold (chars t).
  rewrite H, nth_error_app2, Nat.sub_diag by lia. reflexivity.
Qed.

Lemma char_at_inside (t : text_layout) (i : nat) :
  (i < String.length (m_text t))%nat -> exists c, char_at t i = Ok c.
Proof.
  intros H. unfold char_at. rewrite get_nth_error. fold (chars t).
  destruct (nth_error (chars t) i) as [c|] eqn:E; eauto.
  apply nth_error_None in E. rewrite length_chars in E. lia.
Qed.

Lemma middle_not_end (t : text_layout) (pre post : list ascii) (c : ascii) :
  chars t = pre ++ c :: post ->
  Nat.eqb (List.length pre) (String.length (m_text t)) = false.
Proof.
  intros H. apply Nat.eqb_neq. rewrite <- length_chars, H, length_app.
  simpl. lia.
Qed.

(** ** find_first_not_of *)

Lemma find_first_not_of_bound (s : string) (c : ascii) (pos i : nat) :
  find_first_not_of s c pos = Some i -> (i < String.length s)%nat.
Proof.
  revert pos i. induction s as [|a s IH]; intros pos i; simpl.
  - discriminate.
  - destruct pos as [|pos].
    + destruct (Ascii.eqb a c).
      * destruct (find_first_not_of s c 0) as [j|] eqn:E; simpl; [|discriminate].
        intros [= <-]. apply IH in E. lia.
      * intros [= <-]. lia.
    + destruct (find_first_not_of s c pos) as [j|] eqn:E; simpl; [|discriminate].
      intros [= <-]. apply IH in E. lia.
Qed.

Lemma find_first_not_of_past (skipped : list ascii) (s : string) (c : ascii) :
  forall rest,
    list_ascii_of_string s = skipped ++ rest ->
    find_first_not_of s c (List.length skipped)
    = option_map (Nat.add (List.length skipped))
        (find_first_not_of (string_of_list_ascii rest) c 0).
Proof.
  revert s. induction skipped as [|a skipped IH]; intros s rest H; simpl in *.
  - rewrite <- H, string_of_list_ascii_of_string.
    destruct (find_first_not_of s c 0); reflexivity.
  - destruct s as [|b s]; simpl in H; [discriminate|].
    injection H as -> H. simpl. rewrite (IH _ _ H).
    destruct (find_first_not_of (string_of_list_ascii rest) c 0); reflexivity.
Qed.

Lemma find_first_not_of_run (c : ascii) (lead tail : list ascii) :
  Forall (fun a => a = c) lead ->
  (tail = [] \/ exists a rest, tail = a :: rest /\ a <> c) ->
  find_first_not_of (string_of_list_ascii (lead ++ tail)) c 0
  = match tail with [] => None | _ => Some (List.length lead) end.
Proof.
  intros Hlead Htail. induction Hlead as [|a lead -> _ IH]; simpl.
  - destruct Htail as [-> | (a & rest & -> & Ha)]; simpl; auto.
    apply Ascii.eqb_neq in Ha. rewrite Ha. reflexivity.
  - rewrite Ascii.eqb_refl, IH. destruct tail; reflexivity.
Qed.

Lemma skip_spaces_le (t : text_layout) (first : nat) :
  (skip_spaces t first <= String.length (m_text t))%nat.
Proof.
  unfold skip_spaces.
  destruct (find_first_not_of (m_text t) space first) as [i|] eqn:E; [|lia].
  apply find_first_not_of_bound in E. lia.
Qed.

(** The scan starts behind the spaces that follow the requested index. *)
Lemma skip_spaces_lead (t : text_layout) (skipped lead tail : list ascii) :
  chars t = skipped ++ lead ++ tail ->
  Forall is_space lead ->
  line_start tail ->
  skip_spaces t (List.length skipped) = List.length (skipped ++ lead).
Proof.
  intros H Hlead Htail. unfold skip_spaces.
  rewrite (find_first_not_of_past skipped _ space (lead ++ tail) H).
  rewrite (find_first_not_of_run space lead tail Hlead Htail).
  rewrite length_app. destruct tail; simpl; [|reflexivity].
  rewrite <- length_chars, H, !length_app. simpl. lia.
Qed.

Lemma find_first_not_of_beyond (s : string) (c : ascii) (pos : nat) :
  (String.length s <= pos)%nat -> find_first_not_of s c pos = None.
Proof.
  revert pos. induction s as [|a s IH]; intros pos H; simpl in *; auto.
  destruct pos as [|pos]; [lia|]. rewrite IH by lia. reflexivity.
Qed.

(** ** The loop combinator *)

Lemma while_unfold {St : Type} (fuel : nat) (cond : St -> outcome bool)
  (body : St -> outcome (flow St)) (s : St) :
  while (S fuel) cond body s
  = (c <- cond s ;;
     if c : bool then
       f <- body s ;;
       match f with
       | Next s' => while fuel cond body s'
       | Break s' => Ok s'
       end
     else Ok s).
Proof. reflexivity. Qed.

(** A loop that came to an end does not use a larger budget. *)
Lemma while_more_fuel {St : Type} (cond : St -> outcome bool)
  (body : St -> outcome (flow St)) (fuel extra : nat) :
  forall s s',
    while fuel cond body s = Ok s' ->
    while (fuel + extra) cond body s = Ok s'.
Proof.
  induction fuel as [|fuel IH]; intros s s'; simpl; [discriminate|].
  destruct (cond s) as [[|]|]; simpl; auto; try discriminate.
  destruct (body s) as [[s1|s1]|]; simpl; auto.
Qed.

(** Total correctness of a loop from an invariant and a variant. *)
Lemma while_total {St : Type} (inv : St -> Prop) (variant : St -> nat)
  (cond : St -> outcome bool) (body : St -> outcome (flow St)) :
  (forall s, inv s -> exists b, cond s = Ok b) ->
  (forall s, inv s -> cond s = Ok true ->
     exists f, body s = Ok f /\
       match f with
       | Next s' => inv s' /\ (variant s' < variant s)%nat
       | Break s' => inv s'
       end) ->
  forall fuel s,
    inv s -> (variant s < fuel)%nat ->
    exists s', while fuel cond body s = Ok s' /\ inv s'.
Proof.
  intros Hcond Hbody. induction fuel as [|fuel IH]; intros s Hs Hv; [lia|].
  rewrite while_unfold. destruct (Hcond s Hs) as [[|] Hc]; rewrite Hc; simpl.
  - destruct (Hbody s Hs Hc) as ([s1|s1] & -> & H1); simpl.
    + destruct H1 as [H1 H2]. apply IH; auto. lia.
    + eauto.
  - eauto.
Qed.

(** ** The width stays in the box *)

Section WidthBounds.
Variable t : text_layout.
Hypothesis box : box_nonneg t.
Hypothesis advances : advances_nonneg t.

Local Abbreviation text_length := (String.length (m_text t)).

Lemma note_space_inv (c : ascii) (s : Width.locals) :
  width_inv t s ->
  width_inv t (note_space c s)
  /\ Width.candidate_length (note_space c s) = Width.candidate_length s
  /\ Width.last (note_space c s) = Width.last s.
Proof.
  unfold width_inv, note_space. intros (Hl & Hr & Hc).
  destruct (Ascii.eqb c space); [destruct (Width.last_space_sequence s)|];
    simpl; auto.
Qed.

Lemma width_cond_defined (s : Width.locals) :
  width_inv t s -> exists b, width_cond t text_length s = Ok b.
Proof.
  intros (Hl & _). unfold width_cond.
  destruct (Nat.eqb_spec (Width.last s) text_length) as [E|E]; eauto.
  destruct (char_at_inside t (Width.last s)) as [c ->]; simpl; eauto.
  lia.
Qed.

Lemma width_cond_true (s : Width.locals) :
  width_cond t text_length s = Ok true ->
  (Width.last s <> text_length)
  /\ exists c, char_at t (Width.last s) = Ok c /\ c <> newline.
Proof.
  unfold width_cond.
  destruct (Nat.eqb_spec (Width.last s) text_length) as [E|E];
    [discriminate|].
  destruct (char_at t (Width.last s)) as [c|]; simpl; [|discriminate].
  intros [= H]. split; auto. exists c. split; auto.
  intros ->. rewrite Ascii.eqb_refl in H. discriminate.
Qed.

Lemma width_body_inv (s : Width.locals) :
  width_inv t s ->
  width_cond t text_length s = Ok true ->
  exists f, width_body t s = Ok f /\
    match f with
    | Next s' =>
        width_inv t s'
        /\ (text_length - Width.last s' < text_length - Width.last s)%nat
    | Break s' => width_inv t s'
    end.
Proof.
  intros Hs Hc. apply width_cond_true in Hc as (Hne & c & Hget & _).
  unfold width_body. rewrite Hget. simpl.
  destruct (note_space_inv c s Hs) as ((Hl & Hr & Hcand) & Ecand & Elast).
  set (s1 := note_space c s) in *.
  destruct (Z.gtb_spec (Width.candidate_length s1 + advance_x t c)
              (claw.x (m_size t))) as [Hover|Hfit].
  - eexists. split; [reflexivity|]. unfold width_inv. simpl. auto.
  - eexists. split; [reflexivity|]. unfold width_inv. simpl.
    pose proof (advances c). rewrite Elast.
    repeat split; try lia.
Qed.

Lemma width_loop_total (fuel : nat) (s : Width.locals) :
  width_inv t s ->
  (text_length - Width.last s < fuel)%nat ->
  exists s',
    while fuel (width_cond t text_length) (width_body t) s = Ok s'
    /\ width_inv t s'.
Proof.
  apply (while_total (width_inv t) (fun s => (text_length - Width.last s)%nat)).
  - apply width_cond_defined.
  - apply width_body_inv.
Qed.

Lemma width_adjust_inv (s : Width.locals) :
  width_inv t s ->
  exists r, width_adjust t text_length s = Ok r
            /\ 0 <= r <= claw.x (m_size t).
Proof.
  intros (Hl & Hr & Hc). unfold width_adjust.
  destruct (Width.last_space_sequence s); [eauto|].
  destruct (Nat.eqb_spec (Width.last s) text_length) as [E|E]; [eauto|].
  destruct (char_at_inside t (Width.last s)) as [c ->].
  { lia. }
  simpl. destruct (Ascii.eqb c newline); [eauto|].
  destruct (Width.result s =? 0); eauto.
Qed.

Lemma postconditions_hold (r : Z) :
  0 <= r <= claw.x (m_size t) ->
  (_ <- CLAW_POSTCOND (r >=? 0) ;;
   _ <- CLAW_POSTCOND (r <=? claw.x (m_size t)) ;;
   Ok r) = Ok r.
Proof.
  intros [H0 H1].
  assert (E0 : (r >=? 0) = true) by (apply Z.geb_le; lia).
  assert (E1 : (r <=? claw.x (m_size t)) = true) by (apply Z.leb_le; lia).
  rewrite E0, E1. reflexivity.
Qed.

Lemma compute_line_width_in_box_fuel (fuel first : nat) :
  (text_length < fuel)%nat ->
  exists r, compute_line_width_fuel fuel t first = Ok r
            /\ 0 <= r <= claw.x (m_size t).
Proof.
  intros Hfuel. unfold compute_line_width_fuel. cbv zeta.
  destruct (width_loop_total fuel (Width.mk (skip_spaces t first) 0 0 0 None))
    as (s' & -> & Hs').
  - unfold width_inv. simpl. pose proof (skip_spaces_le t first).
    unfold box_nonneg in box. lia.
  - simpl. lia.
  - simpl. destruct (width_adjust_inv s' Hs') as (r & -> & Hr). simpl.
    exists r. split; auto. apply postconditions_hold. exact Hr.
Qed.
End WidthBounds.

(** C1. With a box of non-negative width and a font without negative
    advances, [compute_line_width] returns, for every start index, a width
    between 0 and the width of the box: neither [CLAW_POSTCOND] fails. *)
Theorem compute_line_width_in_box (t : text_layout) (start : nat) :
  box_nonneg t ->
  advances_nonneg t ->
  exists r, compute_line_width t start = Ok r /\ 0 <= r <= claw.x (m_size t).
Proof.
  intros box advances. unfold compute_line_width.
  apply compute_line_width_in_box_fuel; auto. unfold enough_fuel. lia.
Qed.

(** ** Termination *)

Section HeightTotal.
Variable t : text_layout.

Local Abbreviation text_length := (String.length (m_text t)).

Lemma height_body_inv (s : Height.locals) :
  height_inv t s ->
  height_cond s = Ok true ->
  exists f, height_body t s = Ok f /\
    match f with
    | Next s' =>
        height_inv t s' /\ (height_variant t s' < height_variant t s)%nat
    | Break s' => height_inv t s'
    end.
Proof.
  unfold height_inv, height_cond, height_variant, height_body.
  intros Hs [= Hstop]. apply negb_true_iff in Hstop. rewrite Hstop.
  destruct (Nat.eqb_spec (Height.first s) text_length) as [E|E].
  { eexists. split; [reflexivity|]. simpl. lia. }
  destruct (char_at_inside t (Height.first s)) as [c ->]; [lia|]. simpl.
  destruct (Ascii.eqb c newline).
  { eexists. split; [reflexivity|]. simpl. lia. }
  destruct (_ >? _); eexists; (split; [reflexivity|]); simpl; lia.
Qed.

Lemma height_loop_total (fuel : nat) (s : Height.locals) :
  height_inv t s ->
  (height_variant t s < fuel)%nat ->
  exists s',
    while fuel height_cond (height_body t) s = Ok s' /\ height_inv t s'.
Proof.
  apply (while_total (height_inv t) (height_variant t)).
  - intros s' _. unfold height_cond. eauto.
  - apply height_body_inv.
Qed.

Lemma compute_line_height_fuel_total (fuel first : nat) :
  (S text_length < fuel)%nat ->
  exists h, compute_line_height_above_baseline_fuel fuel t first = Ok h.
Proof.
  intros Hfuel. unfold compute_line_height_above_baseline_fuel. cbv zeta.
  destruct (height_loop_total fuel
              (Height.mk (skip_spaces t first) 0 0 false)) as (s' & -> & _).
  - unfold height_inv. simpl. apply skip_spaces_le.
  - unfold height_variant. simpl. lia.
  - simpl. eauto.
Qed.
End HeightTotal.

(** A larger budget does not change what the queries return. *)
Lemma compute_line_width_fuel_more (t : text_layout) (first fuel extra : nat)
  (r : Z) :
  compute_line_width_fuel fuel t first = Ok r ->
  compute_line_width_fuel (fuel + extra) t first = Ok r.
Proof.
  unfold compute_line_width_fuel. cbv zeta.
  destruct (while fuel _ _ _) as [s|] eqn:E; simpl; [|discriminate].
  rewrite (while_more_fuel _ _ fuel extra _ _ E). auto.
Qed.

Lemma compute_line_left_fuel_more (t : text_layout) (first fuel extra : nat)
  (r : Z) :
  compute_line_left_fuel fuel t first = Ok r ->
  compute_line_left_fuel (fuel + extra) t first = Ok r.
Proof.
  unfold compute_line_left_fuel.
  destruct (m_horizontal_align t); auto;
    destruct (compute_line_width_fuel fuel t first) as [w|] eqn:E; simpl;
    try discriminate;
    rewrite (compute_line_width_fuel_more _ _ _ extra _ E); auto.
Qed.

Lemma compute_line_height_fuel_more (t : text_layout)
  (first fuel extra : nat) (r : Z) :
  compute_line_height_above_baseline_fuel fuel t first = Ok r ->
  compute_line_height_above_baseline_fuel (fuel + extra) t first = Ok r.
Proof.
  unfold compute_line_height_above_baseline_fuel. cbv zeta.
  destruct (while fuel _ _ _) as [s|] eqn:E; simpl; [|discriminate].
  rewrite (while_more_fuel _ _ fuel extra _ _ E). auto.
Qed.

Lemma compute_line_left_of_width (t : text_layout) (first fuel : nat) (w : Z) :
  compute_line_width_fuel fuel t first = Ok w ->
  exists l, compute_line_left_fuel fuel t first = Ok l.
Proof.
  intros H. unfold compute_line_left_fuel.
  destruct (m_horizontal_align t); rewrite ?H; simpl; eauto.
Qed.

(** C9. With a box of non-negative width and a font without negative
    advances, the three queries return a value for every text and every start
    index: the budget [enough_fuel] ends both loops, no index leaves the
    text, no postcondition fails, and any larger budget gives the same
    values. *)
Theorem queries_total (t : text_layout) (start : nat) :
  box_nonneg t ->
  advances_nonneg t ->
  exists w l h,
    compute_line_width t start = Ok w
    /\ compute_line_left t start = Ok l
    /\ compute_line_height_above_baseline t start = Ok h
    /\ forall extra,
        compute_line_width_fuel (enough_fuel t + extra) t start = Ok w
        /\ compute_line_left_fuel (enough_fuel t + extra) t start = Ok l
        /\ compute_line_height_above_baseline_fuel (enough_fuel t + extra)
             t start = Ok h.
Proof.
  intros box advances.
  destruct (compute_line_width_in_box_fuel t box advances (enough_fuel t) start)
    as (w & Hw & _); [unfold enough_fuel; lia|].
  destruct (compute_line_left_of_width _ _ _ _ Hw) as (l & Hl).
  destruct (compute_line_height_fuel_total t (enough_fuel t) start) as (h & Hh);
    [unfold enough_fuel; lia|].
  exists w, l, h. repeat split; auto.
  - apply compute_line_width_fuel_more, Hw.
  - apply compute_line_left_fuel_more, Hl.
  - apply compute_line_height_fuel_more, Hh.
Qed.

(** ** The scan of compute_line_width over a run of characters *)

Section WidthScan.
Variable t : text_layout.

Local Abbreviation text_length := (String.length (m_text t)).
Local Abbreviation loop fuel s :=
  (while fuel (width_cond t (String.length (m_text t))) (width_body t) s).

Lemma note_space_candidate (c : ascii) (s : Width.locals) :
  Width.candidate_length (note_space c s) = Width.candidate_length s.
Proof.
  unfold note_space.
  destruct (Ascii.eqb c space); [destruct (Width.last_space_sequence s)|];
    reflexivity.
Qed.

Lemma note_space_last (c : ascii) (s : Width.locals) :
  Width.last (note_space c s) = Width.last s.
Proof.
  unfold note_space.
  destruct (Ascii.eqb c space); [destruct (Width.last_space_sequence s)|];
    reflexivity.
Qed.

Lemma width_cond_inside (pre post : list ascii) (c : ascii)
  (s : Width.locals) :
  chars t = pre ++ c :: post ->
  Width.last s = List.length pre ->
  width_cond t text_length s = Ok (negb (Ascii.eqb c newline)).
Proof.
  intros H Hlast. unfold width_cond.
  rewrite Hlast, (middle_not_end t pre post c H), (char_at_middle t pre post c H).
  reflexivity.
Qed.

Lemma width_step_hard_break (pre tail : list ascii) (s : Width.locals)
  (fuel : nat) :
  chars t = pre ++ tail ->
  Width.last s = List.length pre ->
  hard_break tail ->
  loop (S fuel) s = Ok s.
Proof.
  intros H Hlast [-> | (rest & ->)]; rewrite while_unfold.
  - unfold width_cond. rewrite Hlast, <- length_chars, H, app_nil_r.
    rewrite Nat.eqb_refl. reflexivity.
  - rewrite (width_cond_inside pre rest newline s H Hlast).
    rewrite Ascii.eqb_refl. reflexivity.
Qed.

Lemma width_step_fit (pre post : list ascii) (c : ascii) (s : Width.locals)
  (fuel : nat) :
  chars t = pre ++ c :: post ->
  Width.last s = List.length pre ->
  c <> newline ->
  Width.candidate_length s + advance_x t c <= claw.x (m_size t) ->
  loop (S fuel) s = loop fuel (absorb t s c).
Proof.
  intros H Hlast Hc Hfit. rewrite while_unfold.
  rewrite (width_cond_inside pre post c s H Hlast).
  apply Ascii.eqb_neq in Hc. rewrite Hc. simpl.
  unfold width_body. rewrite Hlast, (char_at_middle t pre post c H). simpl.
  rewrite note_space_candidate.
  destruct (Z.gtb_spec (Width.candidate_length s + advance_x t c)
              (claw.x (m_size t))) as [Hover|_]; [lia|].
  simpl. unfold absorb. rewrite note_space_candidate. reflexivity.
Qed.

Lemma width_step_overflow (pre post : list ascii) (c : ascii)
  (s : Width.locals) (fuel : nat) :
  chars t = pre ++ c :: post ->
  Width.last s = List.length pre ->
  c <> newline ->
  claw.x (m_size t) < Width.candidate_length s + advance_x t c ->
  loop (S fuel) s = Ok (overflow_at t s c).
Proof.
  intros H Hlast Hc Hover. rewrite while_unfold.
  rewrite (width_cond_inside pre post c s H Hlast).
  apply Ascii.eqb_neq in Hc. rewrite Hc. simpl.
  unfold width_body. rewrite Hlast, (char_at_middle t pre post c H). simpl.
  rewrite note_space_candidate.
  destruct (Z.gtb_spec (Width.candidate_length s + advance_x t c)
              (claw.x (m_size t))) as [_|Hfit]; [|lia].
  simpl. unfold overflow_at. rewrite note_space_candidate. reflexivity.
Qed.

Lemma absorb_last (seg : list ascii) (s : Width.locals) :
  Width.last (fold_left (absorb t) seg s)
  = (Width.last s + List.length seg)%nat.
Proof.
  revert s. induction seg as [|c seg IH]; intros s; simpl; [lia|].
  rewrite IH. unfold absorb. simpl. rewrite note_space_last. lia.
Qed.

Lemma absorb_candidate (seg : list ascii) (s : Width.locals) :
  Width.candidate_length (fold_left (absorb t) seg s)
  = Width.candidate_length s + advance_sum t seg.
Proof.
  revert s. induction seg as [|c seg IH]; intros s; simpl; [lia|].
  rewrite IH. unfold absorb. simpl. rewrite note_space_candidate. lia.
Qed.

(** The loop passes over a run of characters that fit. *)
Lemma width_loop_over (seg : list ascii) :
  forall pre post s fuel,
    chars t = pre ++ seg ++ post ->
    Width.last s = List.length pre ->
    Forall not_newline seg ->
    fits t (Width.candidate_length s) seg ->
    loop (List.length seg + fuel) s = loop fuel (fold_left (absorb t) seg s).
Proof.
  induction seg as [|c seg IH]; intros pre post s fuel H Hlast Hnl Hfit;
    [reflexivity|].
  inversion Hnl as [|? ? Hc Hnl']; subst. destruct Hfit as [Hc_fit Hfit].
  cbn [List.length Nat.add fold_left].
  rewrite (width_step_fit pre (seg ++ post) c s _ H Hlast Hc Hc_fit).
  apply (IH (pre ++ [c]) post).
  - rewrite <- app_assoc. exact H.
  - unfold absorb. simpl. rewrite note_space_last, Hlast, length_app.
    simpl. lia.
  - exact Hnl'.
  - unfold absorb. simpl. rewrite note_space_candidate. exact Hfit.
Qed.

Lemma width_loop_to_hard_break (pre seg tail : list ascii)
  (s : Width.locals) (fuel : nat) :
  chars t = pre ++ seg ++ tail ->
  Width.last s = List.length pre ->
  Forall not_newline seg ->
  fits t (Width.candidate_length s) seg ->
  hard_break tail ->
  (List.length seg < fuel)%nat ->
  loop fuel s = Ok (fold_left (absorb t) seg s).
Proof.
  intros H Hlast Hnl Hfit Htail Hfuel.
  replace fuel with (List.length seg + S (fuel - S (List.length seg)))%nat
    by lia.
  rewrite (width_loop_over seg pre tail s _ H Hlast Hnl Hfit).
  apply (width_step_hard_break (pre ++ seg) tail).
  - rewrite <- app_assoc. exact H.
  - rewrite absorb_last, Hlast, length_app. reflexivity.
  - exact Htail.
Qed.

Lemma width_loop_to_overflow (pre seg post : list ascii) (c : ascii)
  (s : Width.locals) (fuel : nat) :
  chars t = pre ++ seg ++ c :: post ->
  Width.last s = List.length pre ->
  Forall not_newline seg ->
  fits t (Width.candidate_length s) seg ->
  c <> newline ->
  claw.x (m_size t)
  < Width.candidate_length s + advance_sum t seg + advance_x t c ->
  (List.length seg < fuel)%nat ->
  loop fuel s = Ok (overflow_at t (fold_left (absorb t) seg s) c).
Proof.
  intros H Hlast Hnl Hfit Hc Hover Hfuel.
  replace fuel with (List.length seg + S (fuel - S (List.length seg)))%nat
    by lia.
  rewrite (width_loop_over seg pre (c :: post) s _ H Hlast Hnl Hfit).
  apply (width_step_overflow (pre ++ seg) post).
  - rewrite <- app_assoc. exact H.
  - rewrite absorb_last, Hlast, length_app. reflexivity.
  - exact Hc.
  - rewrite absorb_candidate. exact Hover.
Qed.
End WidthScan.

(** ** What the scan remembers of the spaces *)

Section SpaceSequences.
Variable t : text_layout.

Lemma absorb_word_result (seg : list ascii) (s : Width.locals) :
  Forall not_space seg ->
  Width.result (fold_left (absorb t) seg s) = Width.result s.
Proof.
  intros H. revert s. induction H as [|c seg Hc _ IH]; intros s; simpl; auto.
  rewrite IH. unfold absorb, note_space. apply Ascii.eqb_neq in Hc.
  rewrite Hc. reflexivity.
Qed.

Lemma absorb_word_sequence (seg : list ascii) (s : Width.locals) :
  Forall not_space seg ->
  Width.last_space_sequence s = None ->
  Width.last_space_sequence (fold_left (absorb t) seg s) = None.
Proof.
  intros H. revert s. induction H as [|c seg Hc _ IH]; intros s Hs; simpl; auto.
  apply IH. unfold absorb, note_space. apply Ascii.eqb_neq in Hc.
  rewrite Hc. reflexivity.
Qed.

Lemma absorb_ends_word (seg : list ascii) (c : ascii) (s : Width.locals) :
  c <> space ->
  Width.last_space_sequence (fold_left (absorb t) (seg ++ [c]) s) = None.
Proof.
  intros Hc. rewrite fold_left_app. simpl. unfold absorb, note_space.
  apply Ascii.eqb_neq in Hc. rewrite Hc. reflexivity.
Qed.

Lemma absorb_in_sequence (seg : list ascii) (s : Width.locals) (b : nat) :
  Forall is_space seg ->
  Width.last_space_sequence s = Some b ->
  Width.result (fold_left (absorb t) seg s) = Width.result s
  /\ Width.last_space_sequence (fold_left (absorb t) seg s) = Some b.
Proof.
  intros H. revert s. induction H as [|c seg Hc _ IH]; intros s Hs; simpl; auto.
  red in Hc. subst c.
  assert (E : note_space space s = s).
  { unfold note_space. rewrite Ascii.eqb_refl, Hs. reflexivity. }
  destruct (IH (absorb t s space)) as [Hr Hl].
  - unfold absorb. rewrite E. exact Hs.
  - rewrite Hr, Hl. unfold absorb. rewrite E. auto.
Qed.

(** The first space of a sequence records the candidate length. *)
Lemma absorb_sequence (seg : list ascii) (s : Width.locals) :
  Forall is_space seg ->
  seg <> [] ->
  Width.last_space_sequence s = None ->
  Width.result (fold_left (absorb t) seg s) = Width.candidate_length s
  /\ Width.last_space_sequence (fold_left (absorb t) seg s)
     = Some (Width.last s).
Proof.
  intros H Hne Hs. destruct H as [|c seg Hc H]; [contradiction|].
  red in Hc. subst c. simpl.
  assert (E : Width.last_space_sequence (absorb t s space)
              = Some (Width.last s)).
  { unfold absorb, note_space. rewrite Ascii.eqb_refl, Hs. reflexivity. }
  destruct (absorb_in_sequence seg _ _ H E) as [-> ->]. split; auto.
  unfold absorb, note_space. rewrite Ascii.eqb_refl, Hs. reflexivity.
Qed.

Lemma width_adjust_hard_break (pre tail : list ascii) (s : Width.locals) :
  chars t = pre ++ tail ->
  Width.last s = List.length pre ->
  hard_break tail ->
  width_adjust t (String.length (m_text t)) s
  = Ok match Width.last_space_sequence s with
       | None => Width.candidate_length s
       | Some _ => Width.result s
       end.
Proof.
  intros H Hlast Htail. unfold width_adjust.
  destruct (Width.last_space_sequence s); [reflexivity|].
  destruct Htail as [-> | (rest & ->)].
  - rewrite Hlast, <- length_chars, H, app_nil_r, Nat.eqb_refl. reflexivity.
  - rewrite Hlast, (middle_not_end t pre rest newline H).
    rewrite (char_at_middle t pre rest newline H). reflexivity.
Qed.

Lemma width_adjust_inside (pre post : list ascii) (c : ascii)
  (s : Width.locals) :
  chars t = pre ++ c :: post ->
  Width.last s = List.length pre ->
  c <> newline ->
  width_adjust t (String.length (m_text t)) s
  = Ok match Width.last_space_sequence s with
       | None =>
           if Width.result s =? 0 then Width.candidate_length s
           else Width.result s
       | Some _ => Width.result s
       end.
Proof.
  intros H Hlast Hc. unfold width_adjust.
  destruct (Width.last_space_sequence s); [reflexivity|].
  rewrite Hlast, (middle_not_end t pre post c H).
  rewrite (char_at_middle t pre post c H). simpl.
  apply Ascii.eqb_neq in Hc. rewrite Hc.
  destruct (Width.result s =? 0); reflexivity.
Qed.

Lemma fits_of_sum (l : list ascii) (cand : Z) :
  advances_nonneg t ->
  cand + advance_sum t l <= claw.x (m_size t) ->
  fits t cand l.
Proof.
  intros Hadv. revert cand. induction l as [|c l IH]; intros cand H; simpl in *.
  - exact I.
  - assert (Hl : 0 <= advance_sum t l).
    { clear -Hadv. induction l as [|a l IH]; simpl; [lia|].
      pose proof (Hadv a). lia. }
    pose proof (Hadv c). split; [lia|]. apply IH. lia.
Qed.

Lemma advance_sum_nonneg (l : list ascii) :
  advances_nonneg t -> 0 <= advance_sum t l.
Proof.
  intros Hadv. induction l as [|a l IH]; simpl; [lia|].
  pose proof (Hadv a). lia.
Qed.

Lemma advance_sum_app (l1 l2 : list ascii) :
  advance_sum t (l1 ++ l2) = advance_sum t l1 + advance_sum t l2.
Proof.
  induction l1 as [|a l1 IH]; simpl; lia.
Qed.

(** The width of a line whose scan ends on a hard break. *)
Lemma width_to_hard_break (start : nat) (pre seg tail : list ascii) :
  skip_spaces t start = List.length pre ->
  chars t = pre ++ seg ++ tail ->
  Forall not_newline seg ->
  fits t 0 seg ->
  hard_break tail ->
  forall s r,
    s = fold_left (absorb t) seg (Width.mk (List.length pre) 0 0 0 None) ->
    r = match Width.last_space_sequence s with
        | None => Width.candidate_length s
        | Some _ => Width.result s
        end ->
    0 <= r <= claw.x (m_size t) ->
    compute_line_width t start = Ok r.
Proof.
  intros Hskip H Hnl Hfit Htail s r Hs Hr Hbounds.
  unfold compute_line_width, compute_line_width_fuel. cbv zeta.
  rewrite Hskip.
  rewrite (width_loop_to_hard_break t pre seg tail); auto.
  - rewrite <- Hs. cbn [bind].
    rewrite (width_adjust_hard_break (pre ++ seg) tail s).
    + rewrite <- Hr. cbn [bind]. apply postconditions_hold. exact Hbounds.
    + rewrite <- app_assoc. exact H.
    + rewrite Hs, absorb_last, length_app. reflexivity.
    + exact Htail.
  - unfold enough_fuel. rewrite <- length_chars, H, !length_app. lia.
Qed.

(** The width of a line whose scan ends on a character that does not fit. *)
Lemma width_to_overflow (start : nat) (pre seg post : list ascii)
  (c : ascii) :
  skip_spaces t start = List.length pre ->
  chars t = pre ++ seg ++ c :: post ->
  Forall not_newline seg ->
  fits t 0 seg ->
  c <> newline ->
  claw.x (m_size t) < advance_sum t seg + advance_x t c ->
  forall s r,
    s = overflow_at t
          (fold_left (absorb t) seg (Width.mk (List.length pre) 0 0 0 None))
          c ->
    r = match Width.last_space_sequence s with
        | None =>
            if Width.result s =? 0 then Width.candidate_length s
            else Width.result s
        | Some _ => Width.result s
        end ->
    0 <= r <= claw.x (m_size t) ->
    compute_line_width t start = Ok r.
Proof.
  intros Hskip H Hnl Hfit Hc Hover s r Hs Hr Hbounds.
  unfold compute_line_width, compute_line_width_fuel. cbv zeta.
  rewrite Hskip.
  rewrite (width_loop_to_overflow t pre seg post c); auto.
  - rewrite <- Hs. cbn [bind].
    rewrite (width_adjust_inside (pre ++ seg) post c s).
    + rewrite <- Hr. cbn [bind]. apply postconditions_hold. exact Hbounds.
    + rewrite <- app_assoc. exact H.
    + rewrite Hs. unfold overflow_at. cbn [Width.last].
      rewrite note_space_last, absorb_last, length_app. reflexivity.
    + exact Hc.
  - unfold enough_fuel. rewrite <- length_chars, H, !length_app. lia.
Qed.
End SpaceSequences.

(** ** Lines of text *)

Lemma hard_break_line_start (tail : list ascii) :
  hard_break tail -> line_start tail.
Proof.
  intros [-> | (rest & ->)]; [left; reflexivity|].
  right. exists newline, rest. split; [reflexivity|discriminate].
Qed.

Lemma word_line_start (l tail : list ascii) :
  l <> [] -> begins_with_word l -> line_start (l ++ tail).
Proof.
  intros Hne Hl. destruct l as [|c l]; [contradiction|].
  right. exists c, (l ++ tail). split; [reflexivity|]. eapply Hl. reflexivity.
Qed.

Lemma spaces_not_newline (l : list ascii) :
  Forall is_space l -> Forall not_newline l.
Proof.
  apply Forall_impl. intros c ->. discriminate.
Qed.

(** The locals of [compute_line_width] behind a run that ends with a word. *)
Lemma absorb_body (t : text_layout) (body : list ascii) (s : Width.locals) :
  body <> [] ->
  ends_with_word body ->
  Width.last_space_sequence (fold_left (absorb t) body s) = None
  /\ Width.candidate_length (fold_left (absorb t) body s)
     = Width.candidate_length s + advance_sum t body.
Proof.
  intros Hne Hend. split; [|apply absorb_candidate].
  destruct (exists_last Hne) as (front & c & E). rewrite E.
  apply absorb_ends_word. eapply Hend. exact E.
Qed.

(** The width of a line that ends on a hard break: the advances of [body],
    without those of the spaces [trail] behind it. *)
Lemma width_of_broken_line (t : text_layout)
  (skipped lead body trail tail : list ascii) :
  chars t = skipped ++ lead ++ body ++ trail ++ tail ->
  Forall is_space lead ->
  begins_with_word body ->
  ends_with_word body ->
  Forall not_newline body ->
  Forall is_space trail ->
  hard_break tail ->
  box_nonneg t ->
  advances_nonneg t ->
  advance_sum t (body ++ trail) <= claw.x (m_size t) ->
  compute_line_width t (List.length skipped) = Ok (advance_sum t body).
Proof.
  intros H Hlead Hbegin Hend Hnl Htrail Htail box advances Hsum.
  destruct (list_eq_dec ascii_dec body []) as [-> | Hne].
  - (* an empty line: the spaces of [trail] are skipped with [lead] *)
    simpl in H.
    apply (width_to_hard_break t _ (skipped ++ lead ++ trail) [] tail)
      with (s := Width.mk (List.length (skipped ++ lead ++ trail)) 0 0 0 None).
    + rewrite (skip_spaces_lead t skipped (lead ++ trail) tail).
      * reflexivity.
      * rewrite <- app_assoc. exact H.
      * apply Forall_app. auto.
      * apply hard_break_line_start, Htail.
    + rewrite <- !app_assoc. exact H.
    + constructor.
    + exact I.
    + exact Htail.
    + reflexivity.
    + reflexivity.
    + simpl. unfold box_nonneg in box. lia.
  - pose proof (advance_sum_nonneg t body advances) as Hbody.
    pose proof (advance_sum_nonneg t trail advances) as Htr.
    rewrite advance_sum_app in Hsum.
    eapply (width_to_hard_break t _ (skipped ++ lead) (body ++ trail) tail).
    + apply (skip_spaces_lead t skipped lead (body ++ trail ++ tail)); auto.
      apply word_line_start; auto.
    + rewrite <- !app_assoc. exact H.
    + apply Forall_app. split; [exact Hnl|]. apply spaces_not_newline, Htrail.
    + apply fits_of_sum; auto. rewrite advance_sum_app. lia.
    + exact Htail.
    + reflexivity.
    + rewrite fold_left_app.
      destruct (absorb_body t body
                  (Width.mk (List.length (skipped ++ lead)) 0 0 0 None)
                  Hne Hend) as [Hseq Hcand].
      destruct trail as [|sp trail].
      * simpl. rewrite Hseq, Hcand. simpl. reflexivity.
      * destruct (absorb_sequence t (sp :: trail)
                    (fold_left (absorb t) body
                       (Width.mk (List.length (skipped ++ lead)) 0 0 0 None))
                    Htrail) as [Hr Hs];
          [discriminate|exact Hseq|].
        rewrite Hs, Hr, Hcand. simpl. reflexivity.
    + lia.
Qed.

Lemma word_begins (word : list ascii) :
  Forall not_space word -> begins_with_word word.
Proof.
  intros H c rest ->. inversion H. assumption.
Qed.

Lemma word_ends (word : list ascii) :
  Forall not_space word -> ends_with_word word.
Proof.
  intros H front c ->. apply Forall_app in H as [_ H]. inversion H. assumption.
Qed.

(** The locals of [compute_line_width] when the scan leaves the loop on a
    character [c] that is not a space. *)
Lemma overflow_in_word (t : text_layout) (s : Width.locals) (c : ascii) :
  c <> space ->
  Width.last_space_sequence (overflow_at t s c) = None
  /\ Width.result (overflow_at t s c) = Width.result s
  /\ Width.candidate_length (overflow_at t s c) = Width.candidate_length s.
Proof.
  intros Hc. unfold overflow_at, note_space. apply Ascii.eqb_neq in Hc.
  rewrite Hc. simpl. auto.
Qed.

(** The width of a line that is one word cut by the box: what fits of it. *)
Lemma width_of_cut_word (t : text_layout) (skipped lead word post : list ascii)
  (c : ascii) :
  chars t = skipped ++ lead ++ word ++ c :: post ->
  Forall is_space lead ->
  Forall not_space word ->
  Forall not_newline word ->
  c <> space ->
  c <> newline ->
  box_nonneg t ->
  advances_nonneg t ->
  advance_sum t word <= claw.x (m_size t) ->
  claw.x (m_size t) < advance_sum t word + advance_x t c ->
  compute_line_width t (List.length skipped) = Ok (advance_sum t word).
Proof.
  intros H Hlead Hword Hnl Hsp Hc box advances Hfit Hover.
  pose proof (advance_sum_nonneg t word advances) as Hpos.
  eapply (width_to_overflow t _ (skipped ++ lead) word post c).
  - apply (skip_spaces_lead t skipped lead (word ++ c :: post)); auto.
    destruct word as [|a word].
    + right. exists c, post. auto.
    + apply word_line_start; [discriminate|]. apply word_begins, Hword.
  - rewrite <- app_assoc. exact H.
  - exact Hnl.
  - apply fits_of_sum; auto.
  - exact Hc.
  - exact Hover.
  - reflexivity.
  - destruct (overflow_in_word t
                (fold_left (absorb t) word
                   (Width.mk (List.length (skipped ++ lead)) 0 0 0 None))
                c Hsp) as (-> & -> & ->).
    rewrite absorb_word_result, absorb_candidate by exact Hword.
    simpl. reflexivity.
  - lia.
Qed.

(** The width of a line whose last word does not fit, when the words before
    it have some width: the advances up to the last spaces before the word. *)
Lemma width_of_wrapped_line (t : text_layout)
  (skipped lead body gap word post : list ascii) (c : ascii) :
  chars t = skipped ++ lead ++ body ++ gap ++ word ++ c :: post ->
  Forall is_space lead ->
  body <> [] ->
  begins_with_word body ->
  ends_with_word body ->
  Forall not_newline body ->
  gap <> [] ->
  Forall is_space gap ->
  Forall not_space word ->
  Forall not_newline word ->
  c <> space ->
  c <> newline ->
  box_nonneg t ->
  advances_nonneg t ->
  advance_sum t (body ++ gap ++ word) <= claw.x (m_size t) ->
  claw.x (m_size t) < advance_sum t (body ++ gap ++ word) + advance_x t c ->
  advance_sum t body <> 0 ->
  compute_line_width t (List.length skipped) = Ok (advance_sum t body).
Proof.
  intros H Hlead Hne Hbegin Hend Hnl Hgne Hgap Hword Hwnl Hsp Hc box advances
    Hfit Hover Hnz.
  pose proof (advance_sum_nonneg t body advances) as Hbody.
  pose proof (advance_sum_nonneg t gap advances) as Hg.
  pose proof (advance_sum_nonneg t word advances) as Hw.
  rewrite !advance_sum_app in Hfit.
  eapply (width_to_overflow t _ (skipped ++ lead) (body ++ gap ++ word) post c).
  - apply (skip_spaces_lead t skipped lead
             (body ++ gap ++ word ++ c :: post)); auto.
    apply word_line_start; auto.
  - rewrite <- !app_assoc. exact H.
  - rewrite !Forall_app. auto using spaces_not_newline.
  - apply fits_of_sum; auto. rewrite !advance_sum_app. lia.
  - exact Hc.
  - exact Hover.
  - reflexivity.
  - set (s0 := Width.mk (List.length (skipped ++ lead)) 0 0 0 None).
    destruct (overflow_in_word t
                (fold_left (absorb t) (body ++ gap ++ word) s0) c Hsp)
      as (-> & -> & _).
    rewrite !fold_left_app, absorb_word_result by exact Hword.
    destruct (absorb_body t body s0 Hne Hend) as [Hseq Hcand].
    destruct (absorb_sequence t gap (fold_left (absorb t) body s0)
                Hgap Hgne Hseq) as [-> _].
    rewrite Hcand. simpl.
    destruct (Z.eqb_spec (advance_sum t body) 0); [contradiction|reflexivity].
  - lia.
Qed.

(** The width of a line cut at a space that does not fit: the advances up
    to the spaces, whatever the width of the words before them. *)
Lemma width_of_line_cut_at_space (t : text_layout)
  (skipped lead body gap post : list ascii) :
  chars t = skipped ++ lead ++ body ++ gap ++ space :: post ->
  Forall is_space lead ->
  body <> [] ->
  begins_with_word body ->
  ends_with_word body ->
  Forall not_newline body ->
  Forall is_space gap ->
  box_nonneg t ->
  advances_nonneg t ->
  advance_sum t (body ++ gap) <= claw.x (m_size t) ->
  claw.x (m_size t) < advance_sum t (body ++ gap) + advance_x t space ->
  compute_line_width t (List.length skipped) = Ok (advance_sum t body).
Proof.
  intros H Hlead Hne Hbegin Hend Hnl Hgap box advances Hfit Hover.
  pose proof (advance_sum_nonneg t body advances) as Hbody.
  pose proof (advance_sum_nonneg t gap advances) as Hg.
  rewrite !advance_sum_app in Hfit.
  set (s0 := Width.mk (List.length (skipped ++ lead)) 0 0 0 None).
  eapply (width_to_overflow t _ (skipped ++ lead) (body ++ gap) post space).
  - apply (skip_spaces_lead t skipped lead (body ++ gap ++ space :: post));
      auto.
    apply word_line_start; auto.
  - rewrite <- !app_assoc. exact H.
  - rewrite !Forall_app. auto using spaces_not_newline.
  - apply fits_of_sum; auto. rewrite !advance_sum_app. lia.
  - discriminate.
  - exact Hover.
  - reflexivity.
  - fold s0. rewrite fold_left_app.
    destruct (absorb_body t body s0 Hne Hend) as [Hseq Hcand].
    unfold overflow_at, note_space. rewrite Ascii.eqb_refl.
    destruct gap as [|sp gap].
    + cbn [fold_left]. rewrite Hseq.
      cbn [Width.last_space_sequence Width.result]. rewrite Hcand.
      simpl. reflexivity.
    + destruct (absorb_sequence t (sp :: gap) (fold_left (absorb t) body s0)
                  Hgap) as [Hr Hs]; [discriminate|exact Hseq|].
      rewrite Hs. cbn [Width.last_space_sequence Width.result].
      rewrite Hs, Hr, Hcand. simpl. reflexivity.
  - lia.
Qed.

(** C4, as the code has it. When the scan stops at a newline or at the end
    of the text, [compute_line_width] returns the advances of the line up to
    its last character that is not a space: the whole candidate length when
    no space stands before the hard break, and the candidate length without
    the advances of the spaces [trail] when some do. *)
Theorem width_at_hard_break (t : text_layout)
  (skipped lead body trail tail : list ascii) :
  chars t = skipped ++ lead ++ body ++ trail ++ tail ->
  Forall is_space lead ->
  begins_with_word body ->
  ends_with_word body ->
  Forall not_newline body ->
  Forall is_space trail ->
  hard_break tail ->
  box_nonneg t ->
  advances_nonneg t ->
  advance_sum t (body ++ trail) <= claw.x (m_size t) ->
  compute_line_width t (List.length skipped)
  = Ok (advance_sum t (body ++ trail) - advance_sum t trail).
Proof.
  intros. rewrite advance_sum_app.
  replace (advance_sum t body + advance_sum t trail - advance_sum t trail)
    with (advance_sum t body) by lia.
  eapply width_of_broken_line; eauto.
Qed.

(** C5, as the code has it. When the line is one unbroken run of characters
    other than spaces and the scan stops because the next character does not
    fit, [compute_line_width] returns the candidate length up to, and
    without, that character; the width is not zero when the advance of the
    first character of the line is positive and fits in the box. *)
Theorem width_mid_word_break (t : text_layout)
  (skipped lead word post : list ascii) (c : ascii) :
  chars t = skipped ++ lead ++ word ++ c :: post ->
  Forall is_space lead ->
  Forall not_space word ->
  Forall not_newline word ->
  c <> space ->
  c <> newline ->
  box_nonneg t ->
  advances_nonneg t ->
  advance_sum t word <= claw.x (m_size t) ->
  claw.x (m_size t) < advance_sum t word + advance_x t c ->
  compute_line_width t (List.length skipped) = Ok (advance_sum t word)
  /\ (forall a rest,
        word ++ [c] = a :: rest ->
        0 < advance_x t a <= claw.x (m_size t) ->
        0 < advance_sum t word).
Proof.
  intros H Hlead Hword Hnl Hsp Hc box advances Hfit Hover.
  split; [eapply width_of_cut_word; eauto|].
  intros a rest E Ha. destruct word as [|b word]; simpl in *.
  - injection E as <- _. lia.
  - injection E as <- _.
    pose proof (advance_sum_nonneg t word advances). lia.
Qed.

(** C6, as the code has it. The test for overflow is not strict: a
    character that brings the candidate length to the width of the box, no
    more, no less, is passed by the scan.  A line whose advances, up to its
    last character that is not a space, add up to the width of the box has
    the width of the box when it then ends on a hard break, when the
    character that does not fit is a space, or when the line holds no space
    at all. *)
Theorem width_exact_fit (t : text_layout) (skipped lead body tail : list ascii) :
  chars t = skipped ++ lead ++ body ++ tail ->
  Forall is_space lead ->
  line_start (body ++ tail) ->
  ends_with_word body ->
  Forall not_newline body ->
  advances_nonneg t ->
  advance_sum t body = claw.x (m_size t) ->
  (hard_break tail
   \/ exists c post,
       tail = c :: post /\ c <> newline /\ 0 < advance_x t c
       /\ (c = space \/ Forall not_space body)) ->
  compute_line_width t (List.length skipped) = Ok (claw.x (m_size t)).
Proof.
  intros H Hlead Hstart Hend Hnl advances Hsum Htail.
  pose proof (advance_sum_nonneg t body advances) as Hpos.
  assert (box : box_nonneg t) by (unfold box_nonneg; lia).
  assert (Hbegin : begins_with_word body).
  { intros a rest ->.
    destruct Hstart as [E | (a' & rest' & E & Ha)]; [discriminate E|].
    simpl in E. injection E as <- _. exact Ha. }
  rewrite <- Hsum.
  destruct Htail as [Htail | (c & post & -> & Hc & Hadv & Hcase)].
  - apply (width_of_broken_line t skipped lead body [] tail); auto.
    rewrite app_nil_r. lia.
  - destruct (ascii_dec c space) as [-> | Hsp].
    + apply (width_of_line_cut_at_space t skipped lead body [] post); auto.
      * intros ->.
        destruct Hstart as [E | (a & rest & E & Ha)]; [discriminate E|].
        simpl in E. injection E as <- _. contradiction.
      * rewrite app_nil_r. lia.
      * rewrite app_nil_r. lia.
    + destruct Hcase as [-> | Hword]; [contradiction|].
      apply (width_of_cut_word t skipped lead body post c); auto; lia.
Qed.

(** ** The scan of compute_line_height_above_baseline *)

Section HeightScan.
Variable t : text_layout.

Local Abbreviation loop fuel s := (while fuel height_cond (height_body t) s).

Lemma height_step_hard_break (pre tail : list ascii) (s : Height.locals)
  (fuel : nat) :
  chars t = pre ++ tail ->
  Height.first s = List.length pre ->
  Height.stop s = false ->
  hard_break tail ->
  loop (S (S fuel)) s
  = Ok (Height.mk (Height.first s) (Height.result s) (Height.line_width s)
          true).
Proof.
  intros H Hfirst Hstop Htail. rewrite while_unfold. unfold height_cond at 1.
  rewrite Hstop. cbn [negb bind]. unfold height_body.
  destruct Htail as [-> | (rest & ->)].
  - rewrite Hfirst, <- length_chars, H, app_nil_r, Nat.eqb_refl. reflexivity.
  - rewrite Hfirst, (middle_not_end t pre rest newline H).
    rewrite (char_at_middle t pre rest newline H). reflexivity.
Qed.

Lemma height_step_fit (pre post : list ascii) (c : ascii)
  (s : Height.locals) (fuel : nat) :
  chars t = pre ++ c :: post ->
  Height.first s = List.length pre ->
  Height.stop s = false ->
  c <> newline ->
  Height.line_width s + advance_x t c <= claw.x (m_size t) ->
  loop (S fuel) s = loop fuel (rise t s c).
Proof.
  intros H Hfirst Hstop Hc Hfit. rewrite while_unfold. unfold height_cond at 1.
  rewrite Hstop. cbn [negb bind]. unfold height_body.
  rewrite Hfirst, (middle_not_end t pre post c H).
  rewrite (char_at_middle t pre post c H). cbn [bind].
  apply Ascii.eqb_neq in Hc. rewrite Hc. fold (advance_x t c).
  destruct (Z.gtb_spec (Height.line_width s + advance_x t c)
              (claw.x (m_size t))) as [Hover|_]; [lia|].
  cbn [bind]. unfold rise. rewrite Hfirst. reflexivity.
Qed.

Lemma height_step_overflow (pre post : list ascii) (c : ascii)
  (s : Height.locals) (fuel : nat) :
  chars t = pre ++ c :: post ->
  Height.first s = List.length pre ->
  Height.stop s = false ->
  c <> newline ->
  claw.x (m_size t) < Height.line_width s + advance_x t c ->
  loop (S (S fuel)) s
  = Ok (Height.mk (Height.first s) (Height.result s)
          (Height.line_width s + advance_x t c) true).
Proof.
  intros H Hfirst Hstop Hc Hover. rewrite while_unfold.
  unfold height_cond at 1. rewrite Hstop. cbn [negb bind]. unfold height_body.
  rewrite Hfirst, (middle_not_end t pre post c H).
  rewrite (char_at_middle t pre post c H). cbn [bind].
  apply Ascii.eqb_neq in Hc. rewrite Hc. fold (advance_x t c).
  destruct (Z.gtb_spec (Height.line_width s + advance_x t c)
              (claw.x (m_size t))) as [_|Hfit]; [|lia].
  rewrite <- Hfirst. reflexivity.
Qed.

Lemma rise_over (seg : list ascii) (s : Height.locals) :
  Height.first (fold_left (rise t) seg s)
  = (Height.first s + List.length seg)%nat
  /\ Height.line_width (fold_left (rise t) seg s)
     = Height.line_width s + advance_sum t seg
  /\ Height.result (fold_left (rise t) seg s)
     = fold_left (fun acc c => Z.max acc (glyph_ascent t c)) seg
         (Height.result s)
  /\ (Height.stop s = false ->
      Height.stop (fold_left (rise t) seg s) = false).
Proof.
  revert s. induction seg as [|c seg IH]; intros s; simpl.
  - repeat split; auto; lia.
  - destruct (IH (rise t s c)) as (-> & -> & -> & Hstop). simpl.
    repeat split; auto; lia.
Qed.

Lemma height_loop_over (seg : list ascii) :
  forall pre post s fuel,
    chars t = pre ++ seg ++ post ->
    Height.first s = List.length pre ->
    Height.stop s = false ->
    Forall not_newline seg ->
    fits t (Height.line_width s) seg ->
    loop (List.length seg + fuel) s = loop fuel (fold_left (rise t) seg s).
Proof.
  induction seg as [|c seg IH]; intros pre post s fuel H Hfirst Hstop Hnl Hfit;
    [reflexivity|].
  inversion Hnl as [|? ? Hc Hnl']; subst. destruct Hfit as [Hc_fit Hfit].
  cbn [List.length Nat.add fold_left].
  rewrite (height_step_fit pre (seg ++ post) c s _ H Hfirst Hstop Hc Hc_fit).
  apply (IH (pre ++ [c]) post); auto.
  - rewrite <- app_assoc. exact H.
  - simpl. rewrite Hfirst, length_app. simpl. lia.
Qed.

(** The height above the baseline is that of the tallest glyph among the
    characters the scan passes before a hard break or a character that
    does not fit. *)
Lemma height_of_scan (start : nat) (pre seg tail : list ascii) :
  skip_spaces t start = List.length pre ->
  chars t = pre ++ seg ++ tail ->
  Forall not_newline seg ->
  fits t 0 seg ->
  (hard_break tail
   \/ exists c post,
       tail = c :: post /\ c <> newline
       /\ claw.x (m_size t) < advance_sum t seg + advance_x t c) ->
  compute_line_height_above_baseline t start = Ok (ascent_max t seg).
Proof.
  intros Hskip H Hnl Hfit Htail.
  unfold compute_line_height_above_baseline,
    compute_line_height_above_baseline_fuel.
  cbv zeta. rewrite Hskip.
  set (s0 := Height.mk (List.length pre) 0 0 false).
  assert (Hlen : (List.length seg <= String.length (m_text t))%nat).
  { rewrite <- length_chars, H, !length_app. lia. }
  unfold enough_fuel.
  replace (S (S (String.length (m_text t))))
    with (List.length seg
          + S (S (String.length (m_text t) - List.length seg)))%nat by lia.
  rewrite (height_loop_over seg pre tail s0 _ H eq_refl eq_refl Hnl Hfit).
  destruct (rise_over seg s0) as (Hfirst & Hwidth & Hresult & Hstop).
  assert (Hpre : chars t = (pre ++ seg) ++ tail)
    by (rewrite <- app_assoc; exact H).
  assert (Hat : Height.first (fold_left (rise t) seg s0)
                = List.length (pre ++ seg))
    by (rewrite Hfirst, length_app; reflexivity).
  destruct Htail as [Htail | (c & post & -> & Hc & Hover)].
  - rewrite (height_step_hard_break (pre ++ seg) tail); auto.
    cbn [bind Height.result]. rewrite Hresult. reflexivity.
  - rewrite (height_step_overflow (pre ++ seg) post c); auto.
    + cbn [bind Height.result]. rewrite Hresult. reflexivity.
    + rewrite Hwidth. exact Hover.
Qed.
End HeightScan.

Lemma skip_spaces_blank (t : text_layout) (start : nat) :
  Forall is_space (skipn start (chars t)) ->
  skip_spaces t start = List.length (chars t).
Proof.
  intros H. destruct (Nat.le_gt_cases start (List.length (chars t))) as [Hle|Hgt].
  - pose proof (skip_spaces_lead t (firstn start (chars t))
                  (skipn start (chars t)) []) as E.
    rewrite length_firstn, Nat.min_l, firstn_skipn in E by exact Hle.
    apply E; auto.
    + rewrite app_nil_r, firstn_skipn. reflexivity.
    + left. reflexivity.
  - unfold skip_spaces. rewrite find_first_not_of_beyond.
    + symmetry. apply length_chars.
    + rewrite <- length_chars. lia.
Qed.

(** C8. When only spaces follow the start index, or the start index is at
    the end of the text or behind it, the width of the line is 0 and so is
    its height above the baseline. *)
Theorem blank_line (t : text_layout) (start : nat) :
  Forall is_space (skipn start (chars t)) ->
  box_nonneg t ->
  compute_line_width t start = Ok 0
  /\ compute_line_height_above_baseline t start = Ok 0.
Proof.
  intros Hblank box. pose proof (skip_spaces_blank t start Hblank) as Hskip.
  assert (H : chars t = chars t ++ [] ++ []) by (rewrite !app_nil_r; reflexivity).
  split.
  - apply (width_to_hard_break t start (chars t) [] [])
      with (s := Width.mk (List.length (chars t)) 0 0 0 None);
      simpl; auto.
    + left. reflexivity.
    + unfold box_nonneg in box. lia.
  - apply (height_of_scan t start (chars t) [] []); auto.
    + exact I.
    + left. left. reflexivity.
Qed.

(** C10. When the first character of the line that is not a space is wider
    than the box, the width of the line is 0 and so is its height above the
    baseline. *)
Theorem narrow_box (t : text_layout) (skipped lead post : list ascii)
  (c : ascii) :
  chars t = skipped ++ lead ++ c :: post ->
  Forall is_space lead ->
  c <> space ->
  claw.x (m_size t) < advance_x t c ->
  box_nonneg t ->
  compute_line_width t (List.length skipped) = Ok 0
  /\ compute_line_height_above_baseline t (List.length skipped) = Ok 0.
Proof.
  intros H Hlead Hsp Hwide box.
  assert (Hskip : skip_spaces t (List.length skipped)
                  = List.length (skipped ++ lead)).
  { apply (skip_spaces_lead t skipped lead (c :: post)); auto.
    right. exists c, post. auto. }
  assert (H' : chars t = (skipped ++ lead) ++ [] ++ c :: post)
    by (rewrite <- app_assoc; exact H).
  unfold box_nonneg in box.
  destruct (ascii_dec c newline) as [-> | Hc].
  - assert (Hbreak : hard_break (newline :: post)) by (right; eauto).
    split.
    + apply (width_to_hard_break t _ (skipped ++ lead) [] (newline :: post))
        with (s := Width.mk (List.length (skipped ++ lead)) 0 0 0 None);
        simpl; auto; lia.
    + apply (height_of_scan t _ (skipped ++ lead) [] (newline :: post));
        simpl; auto.
  - split.
    + eapply (width_to_overflow t _ (skipped ++ lead) [] post c).
      * exact Hskip.
      * exact H'.
      * constructor.
      * exact I.
      * exact Hc.
      * simpl. lia.
      * reflexivity.
      * destruct (overflow_in_word t
                    (fold_left (absorb t) []
                       (Width.mk (List.length (skipped ++ lead)) 0 0 0 None))
                    c Hsp) as (-> & -> & ->).
        reflexivity.
      * lia.
    + apply (height_of_scan t _ (skipped ++ lead) [] (c :: post));
        simpl; auto.
      right. exists c, post. repeat split; auto.
Qed.

(** C7. With the centred alignment, [compute_line_left] returns half of the
    space that the line leaves in the box, the quotient being truncated
    toward zero. *)
Theorem centered_offset (t : text_layout) (start : nat) :
  m_horizontal_align t = text_align.align_center ->
  box_nonneg t ->
  advances_nonneg t ->
  exists w,
    compute_line_width t start = Ok w
    /\ compute_line_left t start = Ok (Z.quot (claw.x (m_size t) - w) 2).
Proof.
  intros Halign box advances.
  destruct (compute_line_width_in_box_fuel t box advances (enough_fuel t) start)
    as (w & Hw & _); [unfold enough_fuel; lia|].
  exists w. split; [exact Hw|].
  unfold compute_line_left, compute_line_left_fuel. rewrite Halign, Hw.
  reflexivity.
Qed.

(** ** The claims on the sample layouts *)

Ltac run_facts :=
  cbn;
  repeat first [ apply Forall_nil | apply Forall_cons ];
  unfold is_space, not_space, not_newline, box_nonneg, advances_nonneg,
    advance_x;
  cbn; intros; try reflexivity; try discriminate; try lia.

Lemma compute_line_width_in_box_witness :
  exists r,
    compute_line_width (layout plain_font "ab cde" 25 text_align.align_left) 0
    = Ok r
    /\ 0 <= r <= 25.
Proof.
  apply (compute_line_width_in_box
           (layout plain_font "ab cde" 25 text_align.align_left) 0);
    run_facts.
Defined.

Lemma queries_total_witness :
  exists w l h,
    compute_line_width (layout plain_font "ab cde" 25 text_align.align_right) 0
    = Ok w
    /\ compute_line_left (layout plain_font "ab cde" 25 text_align.align_right)
         0 = Ok l
    /\ compute_line_height_above_baseline
         (layout plain_font "ab cde" 25 text_align.align_right) 0 = Ok h.
Proof.
  destruct (queries_total
              (layout plain_font "ab cde" 25 text_align.align_right) 0)
    as (w & l & h & Hw & Hl & Hh & _); [run_facts | run_facts |].
  exists w, l, h. auto.
Defined.

Lemma width_at_hard_break_witness :
  compute_line_width (layout plain_font "ab  " 100 text_align.align_left) 0
  = Ok 20.
Proof.
  apply (width_at_hard_break
           (layout plain_font "ab  " 100 text_align.align_left)
           [] [] (list_ascii_of_string "ab") (list_ascii_of_string "  ") []);
    try (apply word_begins); try (apply word_ends); try (left; reflexivity);
    run_facts.
Defined.

Lemma width_mid_word_break_witness :
  compute_line_width (layout plain_font "abcdef" 25 text_align.align_left) 0
  = Ok 20.
Proof.
  apply (width_mid_word_break
           (layout plain_font "abcdef" 25 text_align.align_left)
           [] [] (list_ascii_of_string "ab") (list_ascii_of_string "def")
           "c"%char);
    run_facts.
Defined.

Lemma width_exact_fit_witness :
  compute_line_width (layout plain_font "ab" 20 text_align.align_left) 0
  = Ok 20
  /\ compute_line_width (layout plain_font "ab cd" 50 text_align.align_left) 0
     = Ok 50
  /\ compute_line_width (layout plain_font "ab cd ef" 50 text_align.align_left)
       0 = Ok 50.
Proof.
  assert (Hend : forall l : list ascii,
             match rev l with [] => True | c :: _ => c <> space end ->
             ends_with_word l).
  { intros l Hl front c E. rewrite E, rev_app_distr in Hl. exact Hl. }
  split; [|split].
  - apply (width_exact_fit (layout plain_font "ab" 20 text_align.align_left)
             [] [] (list_ascii_of_string "ab") []);
      try (apply Hend; simpl; discriminate);
      try (left; left; reflexivity);
      try (right; do 2 eexists; split; [reflexivity|]);
      run_facts.
  - apply (width_exact_fit
             (layout plain_font "ab cd" 50 text_align.align_left)
             [] [] (list_ascii_of_string "ab cd") []);
      try (apply Hend; simpl; discriminate);
      try (left; left; reflexivity);
      try (right; do 2 eexists; split; [reflexivity|]);
      run_facts.
  - apply (width_exact_fit
             (layout plain_font "ab cd ef" 50 text_align.align_left)
             [] [] (list_ascii_of_string "ab cd") (list_ascii_of_string " ef")).
    + reflexivity.
    + constructor.
    + right. do 2 eexists. split; [reflexivity|discriminate].
    + apply Hend. simpl. discriminate.
    + run_facts.
    + run_facts.
    + reflexivity.
    + right. exists space, (list_ascii_of_string "ef").
      split; [reflexivity|]. split; [discriminate|].
      split; [reflexivity|]. left. reflexivity.
Defined.

Lemma centered_offset_witness :
  compute_line_left (layout plain_font "ab cde" 25 text_align.align_center) 0
  = Ok 2.
Proof.
  destruct (centered_offset
              (layout plain_font "ab cde" 25 text_align.align_center) 0)
    as (w & Hw & Hl); [run_facts | run_facts | run_facts |].
  vm_compute in Hw. injection Hw as <-. exact Hl.
Defined.

Lemma blank_line_witness :
  compute_line_width (layout plain_font "ab   " 25 text_align.align_left) 3
  = Ok 0
  /\ compute_line_height_above_baseline
       (layout plain_font "ab   " 25 text_align.align_left) 3 = Ok 0.
Proof.
  apply (blank_line (layout plain_font "ab   " 25 text_align.align_left) 3);
    run_facts.
Defined.

Lemma narrow_box_witness :
  compute_line_width (layout plain_font " ab" 5 text_align.align_left) 0 = Ok 0
  /\ compute_line_height_above_baseline
       (layout plain_font " ab" 5 text_align.align_left) 0 = Ok 0.
Proof.
  apply (narrow_box (layout plain_font " ab" 5 text_align.align_left)
           [] [space] [("b")%char] "a"%char);
    run_facts.
Defined.

(** The line of "ab cde" in a box of width 25 is "ab": the space behind it
    is the character that does not fit. *)
Example sample_cut_at_space :
  compute_line_width (layout plain_font "ab cde" 25 text_align.align_left) 0
  = Ok (advance_sum (layout plain_font "ab cde" 25 text_align.align_left)
          (list_ascii_of_string "ab")).
Proof.
  apply (width_of_line_cut_at_space
           (layout plain_font "ab cde" 25 text_align.align_left)
           [] [] (list_ascii_of_string "ab") [] (list_ascii_of_string "cde"));
    try (apply word_begins); try (apply word_ends); run_facts.
Qed.

(** In a box of width 45 the line is "ab" again: "d" does not fit and the
    word "cde" goes to the next line. *)
Example sample_wrapped_line :
  compute_line_width (layout plain_font "ab cde" 45 text_align.align_left) 0
  = Ok (advance_sum (layout plain_font "ab cde" 45 text_align.align_left)
          (list_ascii_of_string "ab")).
Proof.
  apply (width_of_wrapped_line
           (layout plain_font "ab cde" 45 text_align.align_left)
           [] [] (list_ascii_of_string "ab") [space] (list_ascii_of_string "c")
           (list_ascii_of_string "e") "d"%char);
    try (apply word_begins); try (apply word_ends); run_facts.
Qed.

(** ** Where the code and the claims part *)

(** C4, as it is written, fails: the two spaces before the end of the text
    "ab  " were passed by the scan, the candidate length is 40, and the
    width returned is 20. *)
Lemma trailing_spaces_not_counted :
  let t := layout plain_font "ab  " 100 text_align.align_left in
  compute_line_width t 0 = Ok 20
  /\ advance_sum t (chars t) = 40
  /\ compute_line_width t 0 <> Ok (advance_sum t (chars t)).
Proof.
  cbv zeta. repeat split; try reflexivity. vm_compute. discriminate.
Qed.

(** C6, as it is written, fails: in "ab cdX", in a box of width 50, "d"
    brings the candidate length to 50, "X" does not fit, and the word "cdX"
    goes to the next line with "d" in it: the width returned is 20. *)
Lemma exact_fit_in_deferred_word :
  let t := layout plain_font "ab cdX" 50 text_align.align_left in
  advance_sum t (list_ascii_of_string "ab cd") = claw.x (m_size t)
  /\ claw.x (m_size t) < advance_sum t (list_ascii_of_string "ab cdX")
  /\ compute_line_width t 0 = Ok 20
  /\ compute_line_width t 0 <> Ok (claw.x (m_size t)).
Proof.
  cbv zeta. repeat split; try reflexivity. vm_compute. discriminate.
Qed.

(** C5, as it is written, fails: in "ab" the advance 0 of "a" fits in the
    box of width 25, "b" does not fit, no space was met, and the width
    returned is 0. *)
Lemma mid_word_break_of_no_width :
  let t := layout (font_with_wide "b") "ab" 25 text_align.align_left in
  0 <= advance_x t "a" <= claw.x (m_size t)
  /\ claw.x (m_size t) < advance_x t "a" + advance_x t "b"
  /\ compute_line_width t 0 = Ok 0.
Proof.
  cbv zeta. repeat split; try reflexivity; vm_compute; discriminate.
Qed.

(** C2. The height above the baseline follows the scan up to the character
    that does not fit, without the step back to the last spaces that
    [compute_line_width] takes.  In a box of width 45 the line of "ab cde"
    and the line of "ab xde" are both "ab", of width 20; "c" is the only tall
    glyph of the font, it belongs to the next line, and the two heights
    differ. *)
Theorem ascent_of_deferred_word :
  let f := font_with_tall "c" in
  let t1 := layout f "ab cde" 45 text_align.align_left in
  let t2 := layout f "ab xde" 45 text_align.align_left in
  compute_line_width t1 0 = Ok 20
  /\ compute_line_width t2 0 = Ok 20
  /\ compute_line_height_above_baseline t1 0 = Ok 100
  /\ compute_line_height_above_baseline t2 0 = Ok 12
  /\ ascent_max t1 (list_ascii_of_string "ab") = 12.
Proof.
  cbv zeta. repeat split; reflexivity.
Qed.

(** C3. The test [result == 0] stands for "no space was found".  In "a bc",
    with a glyph of "a" that has no advance, the spaces behind "a" are
    recorded with the candidate length 0, "c" does not fit in the box of
    width 25, and the width returned is 20, the candidate length with the
    space and "b", instead of the 0 recorded at the spaces. *)
Theorem word_break_after_thin_word :
  let t := layout (font_with_thin "a") "a bc" 25 text_align.align_left in
  advance_sum t (list_ascii_of_string "a") = 0
  /\ advance_sum t (list_ascii_of_string "a b") = 20
  /\ claw.x (m_size t) < advance_sum t (list_ascii_of_string "a bc")
  /\ compute_line_width t 0 = Ok 20.
Proof.
  cbv zeta. repeat split; reflexivity.
Qed.

(** * More of the layout *)

(** ** The scans read on the characters that remain *)

Lemma find_first_not_of_drop (s : string) (pos : nat) :
  skipn match find_first_not_of s space pos with
        | Some i => i
        | None => String.length s
        end (list_ascii_of_string s)
  = drop_spaces (skipn pos (list_ascii_of_string s)).
Proof.
  revert pos. induction s as [|a s IH]; intros pos; simpl.
  - destruct pos; reflexivity.
  - destruct pos as [|pos]; simpl.
    + specialize (IH O). simpl in IH.
      destruct (Ascii.eqb a space); [|reflexivity].
      destruct (find_first_not_of s space 0); simpl; exact IH.
    + specialize (IH pos).
      destruct (find_first_not_of s space pos); simpl; exact IH.
Qed.

Lemma line_from_drop (t : text_layout) (start : nat) :
  line_from t start = drop_spaces (skipn start (chars t)).
Proof.
  unfold line_from, skip_spaces, chars. apply find_first_not_of_drop.
Qed.

Lemma line_from_split (t : text_layout) (start : nat) :
  chars t = firstn (skip_spaces t start) (chars t) ++ line_from t start
  /\ List.length (firstn (skip_spaces t start) (chars t)) = skip_spaces t start.
Proof.
  unfold line_from. split.
  - symmetry. apply firstn_skipn.
  - rewrite length_firstn, length_chars. apply Nat.min_l, skip_spaces_le.
Qed.

Lemma bind_assoc {A B C : Type} (m : outcome A) (f : A -> outcome B)
  (g : B -> outcome C) :
  (b <- (a <- m ;; f a) ;; g b) = (a <- m ;; b <- f a ;; g b).
Proof. destruct m; reflexivity. Qed.

(** The loop of [compute_line_width] and the adjustment of its result give
    what [width_of_rest] reads on the characters from [last] on. *)
Lemma width_loop_rest (t : text_layout) (rest : list ascii) :
  forall pre s fuel,
    chars t = pre ++ rest ->
    Width.last s = List.length pre ->
    (List.length rest < fuel)%nat ->
    (s' <- while fuel (width_cond t (String.length (m_text t)))
             (width_body t) s ;;
     width_adjust t (String.length (m_text t)) s')
    = Ok (width_of_rest t rest (Width.result s) (Width.candidate_length s)
            match Width.last_space_sequence s with
            | Some _ => true
            | None => false
            end).
Proof.
  induction rest as [|c rest IH]; intros pre s fuel H Hlast Hfuel;
    (destruct fuel as [|fuel]; [simpl in Hfuel; lia|]).
  - rewrite (width_step_hard_break t pre [] s fuel H Hlast)
      by (left; reflexivity).
    cbn [bind]. rewrite (width_adjust_hard_break t pre [] s H Hlast)
      by (left; reflexivity).
    simpl. destruct (Width.last_space_sequence s); reflexivity.
  - cbn [width_of_rest]. destruct (Ascii.eqb c newline) eqn:Enl.
    + apply Ascii.eqb_eq in Enl. subst c.
      rewrite (width_step_hard_break t pre (newline :: rest) s fuel H Hlast)
        by (right; eauto).
      cbn [bind].
      rewrite (width_adjust_hard_break t pre (newline :: rest) s H Hlast)
        by (right; eauto).
      destruct (Width.last_space_sequence s); reflexivity.
    + apply Ascii.eqb_neq in Enl.
      destruct (Z.gtb_spec (Width.candidate_length s + advance_x t c)
                  (claw.x (m_size t))) as [Hover|Hfit].
      * rewrite (width_step_overflow t pre rest c s fuel H Hlast Enl Hover).
        cbn [bind].
        rewrite (width_adjust_inside t pre rest c (overflow_at t s c) H)
          by (try exact Enl; unfold overflow_at; cbn [Width.last];
              rewrite note_space_last; exact Hlast).
        unfold overflow_at, note_space.
        destruct (Ascii.eqb c space);
          destruct (Width.last_space_sequence s) eqn:E;
          cbn [Width.last_space_sequence Width.result Width.candidate_length];
          rewrite ?E; reflexivity.
      * rewrite (width_step_fit t pre rest c s fuel H Hlast Enl Hfit).
        rewrite (IH (pre ++ [c]) (absorb t s c) fuel).
        -- unfold absorb, note_space.
           destruct (Ascii.eqb c space);
             destruct (Width.last_space_sequence s) eqn:E;
             cbn [Width.last_space_sequence Width.result
                  Width.candidate_length];
             rewrite ?E; reflexivity.
        -- rewrite <- app_assoc. exact H.
        -- unfold absorb. cbn [Width.last].
           rewrite note_space_last, Hlast, length_app. simpl. lia.
        -- simpl in Hfuel. lia.
Qed.

(** [compute_line_width] on the characters of the line. *)
Lemma compute_line_width_rest (t : text_layout) (start : nat) :
  compute_line_width t start
  = checked_width t (width_of_rest t (line_from t start) 0 0 false).
Proof.
  destruct (line_from_split t start) as [Hsplit Hlen].
  unfold compute_line_width, compute_line_width_fuel. cbv zeta.
  rewrite <- bind_assoc.
  rewrite (width_loop_rest t (line_from t start)
             (firstn (skip_spaces t start) (chars t))); auto.
  unfold enough_fuel, line_from. rewrite <- length_chars, length_skipn. lia.
Qed.

(** The loop of [compute_line_height_above_baseline] gives what
    [height_of_rest] reads on the characters from [first] on. *)
Lemma height_loop_rest (t : text_layout) (rest : list ascii) :
  forall pre s fuel,
    chars t = pre ++ rest ->
    Height.first s = List.length pre ->
    Height.stop s = false ->
    (S (List.length rest) < fuel)%nat ->
    (s' <- while fuel height_cond (height_body t) s ;; Ok (Height.result s'))
    = Ok (height_of_rest t rest (Height.result s) (Height.line_width s)).
Proof.
  induction rest as [|c rest IH]; intros pre s fuel H Hfirst Hstop Hfuel;
    (destruct fuel as [|[|fuel]]; [simpl in Hfuel; lia ..|]).
  - rewrite (height_step_hard_break t pre [] s fuel H Hfirst Hstop)
      by (left; reflexivity).
    reflexivity.
  - cbn [height_of_rest]. destruct (Ascii.eqb c newline) eqn:Enl.
    + apply Ascii.eqb_eq in Enl. subst c.
      rewrite (height_step_hard_break t pre (newline :: rest) s fuel H Hfirst
                 Hstop) by (right; eauto).
      reflexivity.
    + apply Ascii.eqb_neq in Enl.
      destruct (Z.gtb_spec (Height.line_width s + advance_x t c)
                  (claw.x (m_size t))) as [Hover|Hfit].
      * rewrite (height_step_overflow t pre rest c s fuel H Hfirst Hstop Enl
                   Hover).
        reflexivity.
      * rewrite (height_step_fit t pre rest c s (S fuel) H Hfirst Hstop Enl
                   Hfit).
        rewrite (IH (pre ++ [c]) (rise t s c) (S fuel)).
        -- reflexivity.
        -- rewrite <- app_assoc. exact H.
        -- simpl. rewrite Hfirst, length_app. simpl. lia.
        -- reflexivity.
        -- simpl in Hfuel. lia.
Qed.

(** [compute_line_height_above_baseline] on the characters of the line. *)
Lemma compute_line_height_rest (t : text_layout) (start : nat) :
  compute_line_height_above_baseline t start
  = Ok (height_of_rest t (line_from t start) 0 0).
Proof.
  destruct (line_from_split t start) as [Hsplit Hlen].
  unfold compute_line_height_above_baseline,
    compute_line_height_above_baseline_fuel.
  cbv zeta.
  rewrite (height_loop_rest t (line_from t start)
             (firstn (skip_spaces t start) (chars t))); auto.
  unfold enough_fuel, line_from. rewrite <- length_chars, length_skipn. lia.
Qed.

(** [compute_line_left] from [compute_line_width]. *)
Lemma compute_line_left_unfold (t : text_layout) (start : nat) :
  compute_line_left t start
  = match m_horizontal_align t with
    | text_align.align_left => Ok 0
    | text_align.align_center =>
        w <- compute_line_width t start ;;
        Ok (Z.quot (claw.x (m_size t) - w) 2)
    | text_align.align_right =>
        w <- compute_line_width t start ;; Ok (claw.x (m_size t) - w)
    end.
Proof.
  unfold compute_line_left, compute_line_left_fuel, compute_line_width.
  destruct (m_horizontal_align t); reflexivity.
Qed.

(** ** Where the line begins *)

Lemma find_first_not_of_spec (s : string) (c : ascii) :
  forall pos,
    match find_first_not_of s c pos with
    | Some i =>
        (pos <= i < String.length s)%nat
        /\ (exists a, String.get i s = Some a /\ a <> c)
        /\ forall j, (pos <= j < i)%nat -> String.get j s = Some c
    | None =>
        forall j, (pos <= j < String.length s)%nat -> String.get j s = Some c
    end.
Proof.
  induction s as [|a s IH]; intros pos; simpl.
  - intros j Hj. lia.
  - destruct pos as [|pos].
    + destruct (Ascii.eqb_spec a c) as [-> | Hne].
      * specialize (IH O).
        destruct (find_first_not_of s c 0) as [i|]; simpl.
        -- destruct IH as (Hi & Ha & Hbefore).
           split; [lia|]. split; [exact Ha|].
           intros [|j] Hj; [reflexivity|]. apply Hbefore. lia.
        -- intros [|j] Hj; [reflexivity|]. apply IH. lia.
      * split; [lia|]. split; [exists a; auto|]. intros j Hj. lia.
    + specialize (IH pos).
      destruct (find_first_not_of s c pos) as [i|]; simpl.
      * destruct IH as (Hi & Ha & Hbefore).
        split; [lia|]. split; [exact Ha|].
        intros [|j] Hj; [lia|]. apply Hbefore. lia.
      * intros [|j] Hj; [lia|]. apply IH. lia.
Qed.

(** X1. "The line begins on the first non space character": the index on
    which both scans start is inside the text or at its end, it is not
    before the start index when that one is in the text, only spaces stand
    between the two, and the character at it, when there is one, is not a
    space. *)
Theorem line_begins_on_first_non_space (t : text_layout) (start : nat) :
  (skip_spaces t start <= String.length (m_text t))%nat
  /\ ((start <= String.length (m_text t))%nat ->
      (start <= skip_spaces t start)%nat)
  /\ (forall j, (start <= j < skip_spaces t start)%nat ->
        char_at t j = Ok space)
  /\ ((skip_spaces t start < String.length (m_text t))%nat ->
      exists c, char_at t (skip_spaces t start) = Ok c /\ c <> space).
Proof.
  pose proof (find_first_not_of_spec (m_text t) space start) as H.
  unfold skip_spaces, char_at.
  destruct (find_first_not_of (m_text t) space start) as [i|].
  - destruct H as (Hi & (a & Ha & Hne) & Hbefore).
    split; [lia|]. split; [lia|]. split.
    + intros j Hj. rewrite (Hbefore j Hj). reflexivity.
    + intros _. exists a. rewrite Ha. auto.
  - split; [lia|]. split; [lia|]. split; [|lia].
    intros j Hj. rewrite (H j Hj). reflexivity.
Qed.

(** ** What the queries depend on *)

Lemma width_of_rest_ext (t1 t2 : text_layout) :
  m_font t1 = m_font t2 ->
  m_size t1 = m_size t2 ->
  forall rest result cand b,
    width_of_rest t1 rest result cand b = width_of_rest t2 rest result cand b.
Proof.
  intros Hfont Hsize. induction rest as [|c rest IH]; intros; simpl; auto.
  unfold advance_x. rewrite Hfont, Hsize, IH. reflexivity.
Qed.

Lemma height_of_rest_ext (t1 t2 : text_layout) :
  m_font t1 = m_font t2 ->
  m_size t1 = m_size t2 ->
  forall rest result line_width,
    height_of_rest t1 rest result line_width
    = height_of_rest t2 rest result line_width.
Proof.
  intros Hfont Hsize. induction rest as [|c rest IH]; intros; simpl; auto.
  unfold advance_x, glyph_ascent. rewrite Hfont, Hsize, IH. reflexivity.
Qed.

(** The three queries are the same on two layouts with the same font, box
    and alignment whose lines have the same width and height to scan. *)
Lemma queries_ext (t1 t2 : text_layout) (start1 start2 : nat) :
  m_font t1 = m_font t2 ->
  m_size t1 = m_size t2 ->
  m_horizontal_align t1 = m_horizontal_align t2 ->
  width_of_rest t1 (line_from t1 start1) 0 0 false
  = width_of_rest t1 (line_from t2 start2) 0 0 false ->
  height_of_rest t1 (line_from t1 start1) 0 0
  = height_of_rest t1 (line_from t2 start2) 0 0 ->
  compute_line_width t1 start1 = compute_line_width t2 start2
  /\ compute_line_left t1 start1 = compute_line_left t2 start2
  /\ compute_line_height_above_baseline t1 start1
     = compute_line_height_above_baseline t2 start2.
Proof.
  intros Hfont Hsize Halign Hw Hh.
  assert (E : compute_line_width t1 start1 = compute_line_width t2 start2).
  { rewrite !compute_line_width_rest, Hw.
    rewrite (width_of_rest_ext t1 t2 Hfont Hsize).
    unfold checked_width. rewrite Hsize. reflexivity. }
  repeat split.
  - exact E.
  - rewrite !compute_line_left_unfold, E, Halign, Hsize. reflexivity.
  - rewrite !compute_line_height_rest, Hh.
    rewrite (height_of_rest_ext t1 t2 Hfont Hsize). reflexivity.
Qed.

Lemma skipn_past (A : Type) (l1 l2 : list A) (k : nat) :
  skipn (List.length l1 + k) (l1 ++ l2) = skipn k l2.
Proof.
  induction l1 as [|a l1 IH]; simpl; auto.
Qed.

(** X2. The three queries look at the text from the start index on only:
    two texts with the same characters from their start indices on, laid
    out with the same font, box and alignment, get the same width, the same
    left origin and the same height, whatever stands before. *)
Theorem text_before_start_ignored (t1 t2 : text_layout)
  (before1 before2 rest : list ascii) (k : nat) :
  m_font t1 = m_font t2 ->
  m_size t1 = m_size t2 ->
  m_horizontal_align t1 = m_horizontal_align t2 ->
  chars t1 = before1 ++ rest ->
  chars t2 = before2 ++ rest ->
  compute_line_width t1 (List.length before1 + k)
  = compute_line_width t2 (List.length before2 + k)
  /\ compute_line_left t1 (List.length before1 + k)
     = compute_line_left t2 (List.length before2 + k)
  /\ compute_line_height_above_baseline t1 (List.length before1 + k)
     = compute_line_height_above_baseline t2 (List.length before2 + k).
Proof.
  intros Hfont Hsize Halign H1 H2.
  assert (E : line_from t1 (List.length before1 + k)
              = line_from t2 (List.length before2 + k)).
  { rewrite !line_from_drop, H1, H2, !skipn_past. reflexivity. }
  apply queries_ext; auto; rewrite E; reflexivity.
Qed.

Lemma drop_spaces_app (l tail : list ascii) :
  line_start tail -> drop_spaces (l ++ tail) = drop_spaces l ++ tail.
Proof.
  intros Htail. induction l as [|a l IH]; simpl.
  - destruct Htail as [-> | (c & rest & -> & Hc)]; [reflexivity|].
    simpl. apply Ascii.eqb_neq in Hc. rewrite Hc. reflexivity.
  - destruct (Ascii.eqb a space); auto.
Qed.

Lemma width_of_rest_hard_break (t : text_layout) (tail : list ascii) :
  hard_break tail ->
  forall l result cand b,
    width_of_rest t (l ++ tail) result cand b = width_of_rest t l result cand b.
Proof.
  intros Htail. induction l as [|c l IH]; intros; simpl.
  - destruct Htail as [-> | (rest & ->)]; reflexivity.
  - rewrite IH. reflexivity.
Qed.

Lemma height_of_rest_hard_break (t : text_layout) (tail : list ascii) :
  hard_break tail ->
  forall l result line_width,
    height_of_rest t (l ++ tail) result line_width
    = height_of_rest t l result line_width.
Proof.
  intros Htail. induction l as [|c l IH]; intros; simpl.
  - destruct Htail as [-> | (rest & ->)]; reflexivity.
  - rewrite IH. reflexivity.
Qed.

Lemma skipn_inside (A : Type) (l1 l2 : list A) (k : nat) :
  (k <= List.length l1)%nat -> skipn k (l1 ++ l2) = skipn k l1 ++ l2.
Proof.
  intros H. rewrite skipn_app.
  replace (k - List.length l1)%nat with O by lia. reflexivity.
Qed.

(** X3. No query looks behind the hard break that ends the line: for a
    start index in [line], the width, the left origin and the height are the
    same whether the text ends behind [line] or goes on with a newline, and
    whatever follows that newline. *)
Theorem text_behind_hard_break_ignored (t1 t2 : text_layout)
  (line tail1 tail2 : list ascii) (start : nat) :
  m_font t1 = m_font t2 ->
  m_size t1 = m_size t2 ->
  m_horizontal_align t1 = m_horizontal_align t2 ->
  chars t1 = line ++ tail1 ->
  chars t2 = line ++ tail2 ->
  hard_break tail1 ->
  hard_break tail2 ->
  (start <= List.length line)%nat ->
  compute_line_width t1 start = compute_line_width t2 start
  /\ compute_line_left t1 start = compute_line_left t2 start
  /\ compute_line_height_above_baseline t1 start
     = compute_line_height_above_baseline t2 start.
Proof.
  intros Hfont Hsize Halign H1 H2 Htail1 Htail2 Hstart.
  apply queries_ext; auto;
    rewrite !line_from_drop, H1, H2, !skipn_inside by exact Hstart;
    rewrite !drop_spaces_app by (apply hard_break_line_start; assumption).
  - rewrite !width_of_rest_hard_break by assumption. reflexivity.
  - rewrite !height_of_rest_hard_break by assumption. reflexivity.
Qed.

Lemma drop_spaces_skip (l : list ascii) (k : nat) :
  Forall is_space (firstn k l) -> drop_spaces (skipn k l) = drop_spaces l.
Proof.
  revert l. induction k as [|k IH]; intros l H; [reflexivity|].
  destruct l as [|a l]; [reflexivity|]. simpl in *.
  inversion H as [|? ? Ha Hl]; subst. red in Ha. subst a.
  rewrite Ascii.eqb_refl. apply IH, Hl.
Qed.

(** X4. A line never begins with spaces: when the [k] characters from the
    start index on are spaces, the queries at the start index and the
    queries behind these spaces give the same width, left origin and
    height. *)
Theorem leading_spaces_skipped (t : text_layout) (start k : nat) :
  Forall is_space (firstn k (skipn start (chars t))) ->
  compute_line_width t (k + start) = compute_line_width t start
  /\ compute_line_left t (k + start) = compute_line_left t start
  /\ compute_line_height_above_baseline t (k + start)
     = compute_line_height_above_baseline t start.
Proof.
  intros H.
  assert (E : line_from t (k + start) = line_from t start).
  { rewrite !line_from_drop, <- skipn_skipn. apply drop_spaces_skip, H. }
  apply queries_ext; auto; rewrite E; reflexivity.
Qed.

(** ** Failures *)

Lemma checked_width_cases (t : text_layout) (r : Z) :
  (0 <= r <= claw.x (m_size t) /\ checked_width t r = Ok r)
  \/ ((r < 0 \/ claw.x (m_size t) < r)
      /\ checked_width t r = Fail postcond_violation).
Proof.
  unfold checked_width, CLAW_POSTCOND.
  destruct (Z.geb_spec r 0) as [H0|H0]; simpl.
  - destruct (Z.leb_spec r (claw.x (m_size t))) as [H1|H1]; simpl.
    + left. split; [lia|reflexivity].
    + right. split; [lia|reflexivity].
  - right. split; [lia|reflexivity].
Qed.

Lemma height_of_rest_ge (t : text_layout) (rest : list ascii) :
  forall result line_width,
    result <= height_of_rest t rest result line_width.
Proof.
  induction rest as [|c rest IH]; intros; simpl; [lia|].
  destruct (Ascii.eqb c newline); [lia|].
  destruct (_ >? _); [lia|].
  etransitivity; [|apply IH]. lia.
Qed.

(** X5. Whatever the text, the start index, the font and the box, negative
    advances and sizes included, both loops come to an end and no index
    leaves the text: [compute_line_width] returns a width in the box or
    fails on one of its postconditions, [compute_line_left] returns an origin
    or fails on the same postconditions, and
    [compute_line_height_above_baseline] returns a height that is not
    negative. *)
Theorem queries_stay_in_text (t : text_layout) (start : nat) :
  ((exists w, compute_line_width t start = Ok w
              /\ 0 <= w <= claw.x (m_size t))
   \/ compute_line_width t start = Fail postcond_violation)
  /\ ((exists l, compute_line_left t start = Ok l)
      \/ compute_line_left t start = Fail postcond_violation)
  /\ exists h, compute_line_height_above_baseline t start = Ok h /\ 0 <= h.
Proof.
  assert (Hw : (exists w, compute_line_width t start = Ok w
                          /\ 0 <= w <= claw.x (m_size t))
               \/ compute_line_width t start = Fail postcond_violation).
  { rewrite compute_line_width_rest.
    destruct (checked_width_cases t
                (width_of_rest t (line_from t start) 0 0 false))
      as [[Hr ->] | [_ ->]]; eauto. }
  split; [exact Hw|]. split.
  - rewrite compute_line_left_unfold.
    destruct (m_horizontal_align t); eauto;
      destruct Hw as [(w & -> & _) | ->]; simpl; eauto.
  - rewrite compute_line_height_rest. eexists. split; [reflexivity|].
    apply height_of_rest_ge.
Qed.

Lemma width_of_rest_negative_box (t : text_layout) (rest : list ascii) :
  claw.x (m_size t) < 0 ->
  advances_nonneg t ->
  width_of_rest t rest 0 0 false = 0.
Proof.
  intros Hbox Hadv. destruct rest as [|c rest]; simpl; [reflexivity|].
  destruct (Ascii.eqb c newline); [reflexivity|].
  pose proof (Hadv c).
  destruct (Z.gtb_spec (advance_x t c) (claw.x (m_size t))); [|lia].
  destruct (Ascii.eqb c space); reflexivity.
Qed.

Lemma height_of_rest_negative_box (t : text_layout) (rest : list ascii) :
  claw.x (m_size t) < 0 ->
  advances_nonneg t ->
  height_of_rest t rest 0 0 = 0.
Proof.
  intros Hbox Hadv. destruct rest as [|c rest]; simpl; [reflexivity|].
  destruct (Ascii.eqb c newline); [reflexivity|].
  pose proof (Hadv c).
  destruct (Z.gtb_spec (advance_x t c) (claw.x (m_size t))); [|lia].
  reflexivity.
Qed.

(** X6. In a box of negative width, with a font without negative advances,
    no character fits: [compute_line_width] fails on its second
    postcondition for every start index, [compute_line_left] returns 0 for
    the left alignment, which does not ask for the width, and fails for the
    two others, and the height above the baseline is 0. *)
Theorem negative_box (t : text_layout) (start : nat) :
  claw.x (m_size t) < 0 ->
  advances_nonneg t ->
  compute_line_width t start = Fail postcond_violation
  /\ compute_line_left t start
     = match m_horizontal_align t with
       | text_align.align_left => Ok 0
       | _ => Fail postcond_violation
       end
  /\ compute_line_height_above_baseline t start = Ok 0.
Proof.
  intros Hbox Hadv.
  assert (Hw : compute_line_width t start = Fail postcond_violation).
  { rewrite compute_line_width_rest, width_of_rest_negative_box by assumption.
    destruct (checked_width_cases t 0) as [[Hr _] | [_ ->]]; [lia|reflexivity]. }
  split; [exact Hw|]. split.
  - rewrite compute_line_left_unfold, Hw.
    destruct (m_horizontal_align t); reflexivity.
  - rewrite compute_line_height_rest, height_of_rest_negative_box by assumption.
    reflexivity.
Qed.

(** ** The line in the box *)

(** X7. With a box of non-negative width and a font without negative
    advances, the line placed at its left origin lies in the box: the origin
    is not negative and the origin plus the width does not exceed the width
    of the box.  The origin is 0 for the left alignment; the line touches the
    right side of the box for the right alignment; the two margins of the
    centred line differ by one unit at most, the left one being the
    smaller. *)
Theorem aligned_line_in_box (t : text_layout) (start : nat) :
  box_nonneg t ->
  advances_nonneg t ->
  exists w l,
    compute_line_width t start = Ok w
    /\ compute_line_left t start = Ok l
    /\ 0 <= l
    /\ l + w <= claw.x (m_size t)
    /\ match m_horizontal_align t with
       | text_align.align_left => l = 0
       | text_align.align_center =>
           l <= claw.x (m_size t) - (l + w) <= l + 1
       | text_align.align_right => l + w = claw.x (m_size t)
       end.
Proof.
  intros box advances.
  destruct (compute_line_width_in_box_fuel t box advances (enough_fuel t) start)
    as (w & Hw & Hbounds); [unfold enough_fuel; lia|].
  fold (compute_line_width t start) in Hw.
  exists w. rewrite compute_line_left_unfold, Hw.
  pose proof (Z.quot_rem' (claw.x (m_size t) - w) 2) as Hquot.
  pose proof (Z.rem_bound_pos (claw.x (m_size t) - w) 2) as Hrem.
  destruct (m_horizontal_align t); simpl; eexists;
    (split; [reflexivity|]); (split; [reflexivity|]); lia.
Qed.

(** ** The line and the run that is scanned *)

Lemma ascent_max_snoc (t : text_layout) (l : list ascii) (c : ascii) :
  ascent_max t (l ++ [c]) = Z.max (ascent_max t l) (glyph_ascent t c).
Proof.
  unfold ascent_max. rewrite fold_left_app. reflexivity.
Qed.

Lemma ascent_max_ge (t : text_layout) (l : list ascii) (c : ascii) :
  In c l -> glyph_ascent t c <= ascent_max t l.
Proof.
  induction l as [|a l IH] using rev_ind; intros H; [contradiction|].
  rewrite ascent_max_snoc. apply in_app_or in H as [H | [-> | []]].
  - apply IH in H. lia.
  - lia.
Qed.

Lemma firstn_inside (A : Type) (l1 l2 : list A) (k : nat) :
  (k <= List.length l1)%nat -> firstn k (l1 ++ l2) = firstn k l1.
Proof.
  intros H. rewrite firstn_app.
  replace (k - List.length l1)%nat with O by lia. simpl. apply app_nil_r.
Qed.

(** The width is the advance of a run at the head of the line, and the
    height is that of a run that holds it. *)
Lemma scans_of_runs (t : text_layout) (rest : list ascii) :
  forall done result cand b k,
    cand = advance_sum t done ->
    (k <= List.length done)%nat ->
    result = advance_sum t (firstn k done) ->
    exists n m,
      (n <= m <= List.length (done ++ rest))%nat
      /\ width_of_rest t rest result cand b
         = advance_sum t (firstn n (done ++ rest))
      /\ height_of_rest t rest (ascent_max t done) cand
         = ascent_max t (firstn m (done ++ rest)).
Proof.
  induction rest as [|c rest IH]; intros done result cand b k Hcand Hk Hres.
  - exists (if b then k else List.length done), (List.length done).
    rewrite app_nil_r, firstn_all. simpl.
    destruct b; repeat split; auto; try lia.
    rewrite firstn_all. exact Hcand.
  - assert (Hstop :
      forall r, (r = result \/ r = cand) ->
        exists n m,
          (n <= m <= List.length (done ++ c :: rest))%nat
          /\ r = advance_sum t (firstn n (done ++ c :: rest))
          /\ ascent_max t done
             = ascent_max t (firstn m (done ++ c :: rest))).
    { intros r [-> | ->].
      - exists k, (List.length done).
        rewrite !firstn_inside, firstn_all, length_app by lia.
        repeat split; auto; lia.
      - exists (List.length done), (List.length done).
        rewrite !firstn_inside, firstn_all, length_app by lia.
        repeat split; auto; lia. }
    simpl. destruct (Ascii.eqb c newline).
    { apply Hstop. destruct b; auto. }
    destruct (cand + advance_x t c >? claw.x (m_size t)).
    { apply Hstop.
      destruct (Ascii.eqb c space); [destruct b; auto|].
      destruct (result =? 0); auto. }
    rewrite <- ascent_max_snoc.
    destruct (IH (done ++ [c])
                (if Ascii.eqb c space then if b then result else cand
                 else result)
                (cand + advance_x t c) (Ascii.eqb c space)
                (if Ascii.eqb c space then
                   if b then k else List.length done
                 else k))
      as (n & m & Hnm & Hw & Hh).
    + rewrite advance_sum_app. simpl. lia.
    + rewrite length_app. simpl.
      destruct (Ascii.eqb c space); [destruct b|]; lia.
    + destruct (Ascii.eqb c space); [destruct b|];
        rewrite firstn_inside by lia; auto.
      rewrite firstn_all. exact Hcand.
    + rewrite <- app_assoc in Hnm, Hw, Hh. simpl in Hnm, Hw, Hh.
      exists n, m. auto.
Qed.

(** X8. With a box of non-negative width and a font without negative
    advances, the width returned is the sum of the advances of a run at the
    head of the line, the height returned is the tallest glyph of a run at
    the head of the line that is at least as long, and so no character of
    the first run is taller than the height. *)
Theorem line_within_scanned_run (t : text_layout) (start : nat) :
  box_nonneg t ->
  advances_nonneg t ->
  exists n m,
    (n <= m <= List.length (line_from t start))%nat
    /\ compute_line_width t start
       = Ok (advance_sum t (firstn n (line_from t start)))
    /\ compute_line_height_above_baseline t start
       = Ok (ascent_max t (firstn m (line_from t start)))
    /\ Forall
         (fun c => glyph_ascent t c
                   <= ascent_max t (firstn m (line_from t start)))
         (firstn n (line_from t start)).
Proof.
  intros box advances.
  destruct (scans_of_runs t (line_from t start) [] 0 0 false O)
    as (n & m & Hnm & Hw & Hh); try reflexivity; try (simpl; lia).
  simpl in Hnm, Hw, Hh. exists n, m. split; [exact Hnm|].
  destruct (compute_line_width_in_box_fuel t box advances (enough_fuel t) start)
    as (w & Hok & _); [unfold enough_fuel; lia|].
  fold (compute_line_width t start) in Hok.
  split; [|split].
  - rewrite compute_line_width_rest in *.
    destruct (checked_width_cases t
                (width_of_rest t (line_from t start) 0 0 false))
      as [[_ E] | [_ E]]; rewrite E in *; [|discriminate].
    rewrite Hw. reflexivity.
  - rewrite compute_line_height_rest. unfold ascent_max at 1 in Hh.
    simpl in Hh. rewrite Hh. reflexivity.
  - apply Forall_forall. intros c Hc. apply ascent_max_ge.
    rewrite <- (firstn_skipn n (firstn m (line_from t start))).
    apply in_or_app. left. rewrite firstn_firstn, Nat.min_l by lia.
    exact Hc.
Qed.

(** ** Where the line is cut *)

(** X9. When the character that does not fit is a space, the line ends
    before the spaces in front of it: the width is the sum of the advances
    of [body], the characters up to the last one that is not a space. *)
Theorem width_cut_at_space (t : text_layout)
  (skipped lead body gap post : list ascii) :
  chars t = skipped ++ lead ++ body ++ gap ++ space :: post ->
  Forall is_space lead ->
  body <> [] ->
  begins_with_word body ->
  ends_with_word body ->
  Forall not_newline body ->
  Forall is_space gap ->
  box_nonneg t ->
  advances_nonneg t ->
  advance_sum t (body ++ gap) <= claw.x (m_size t) ->
  claw.x (m_size t) < advance_sum t (body ++ gap) + advance_x t space ->
  compute_line_width t (List.length skipped) = Ok (advance_sum t body).
Proof.
  intros. eapply width_of_line_cut_at_space; eauto.
Qed.

(** X10. When the character that does not fit stands in a word, and the
    characters before the last spaces in front of that word have a width
    that is not 0, the whole word goes to the next line: the width is the
    sum of the advances of [body], the characters before these spaces. *)
Theorem width_word_wrap (t : text_layout)
  (skipped lead body gap word post : list ascii) (c : ascii) :
  chars t = skipped ++ lead ++ body ++ gap ++ word ++ c :: post ->
  Forall is_space lead ->
  body <> [] ->
  begins_with_word body ->
  ends_with_word body ->
  Forall not_newline body ->
  gap <> [] ->
  Forall is_space gap ->
  Forall not_space word ->
  Forall not_newline word ->
  c <> space ->
  c <> newline ->
  box_nonneg t ->
  advances_nonneg t ->
  advance_sum t (body ++ gap ++ word) <= claw.x (m_size t) ->
  claw.x (m_size t) < advance_sum t (body ++ gap ++ word) + advance_x t c ->
  advance_sum t body <> 0 ->
  compute_line_width t (List.length skipped) = Ok (advance_sum t body).
Proof.
  intros. eapply width_of_wrapped_line; eauto.
Qed.

(** X11. The height above the baseline is that of the tallest glyph among
    the characters [seg] that the scan passes, from the first character that
    is not a space to the hard break or to the character that does not fit,
    and 0 when it passes none. *)
Theorem height_of_scanned_run (t : text_layout)
  (skipped lead seg tail : list ascii) :
  chars t = skipped ++ lead ++ seg ++ tail ->
  Forall is_space lead ->
  line_start (seg ++ tail) ->
  Forall not_newline seg ->
  fits t 0 seg ->
  (hard_break tail
   \/ exists c post,
       tail = c :: post /\ c <> newline
       /\ claw.x (m_size t) < advance_sum t seg + advance_x t c) ->
  compute_line_height_above_baseline t (List.length skipped)
  = Ok (ascent_max t seg).
Proof.
  intros H Hlead Hstart Hnl Hfit Htail.
  apply (height_of_scan t _ (skipped ++ lead) seg tail); auto.
  - apply (skip_spaces_lead t skipped lead (seg ++ tail)); auto.
  - rewrite <- app_assoc. exact H.
Qed.

(** ** The properties on the sample layouts *)

Lemma text_before_start_ignored_witness :
  compute_line_width (layout plain_font "xy ab cde" 25 text_align.align_center)
    3
  = compute_line_width (layout plain_font "ab cde" 25 text_align.align_center)
      0
  /\ compute_line_left
       (layout plain_font "xy ab cde" 25 text_align.align_center) 3
     = compute_line_left
         (layout plain_font "ab cde" 25 text_align.align_center) 0
  /\ compute_line_height_above_baseline
       (layout plain_font "xy ab cde" 25 text_align.align_center) 3
     = compute_line_height_above_baseline
         (layout plain_font "ab cde" 25 text_align.align_center) 0.
Proof.
  apply (text_before_start_ignored
           (layout plain_font "xy ab cde" 25 text_align.align_center)
           (layout plain_font "ab cde" 25 text_align.align_center)
           (list_ascii_of_string "xy ") [] (list_ascii_of_string "ab cde") 0);
    reflexivity.
Defined.

Lemma text_behind_hard_break_ignored_witness :
  compute_line_width
    (layout plain_font (String "a" (String "b" (String newline "cde"))) 25
       text_align.align_right) 0
  = compute_line_width (layout plain_font "ab" 25 text_align.align_right) 0
  /\ compute_line_left
       (layout plain_font (String "a" (String "b" (String newline "cde"))) 25
          text_align.align_right) 0
     = compute_line_left (layout plain_font "ab" 25 text_align.align_right) 0
  /\ compute_line_height_above_baseline
       (layout plain_font (String "a" (String "b" (String newline "cde"))) 25
          text_align.align_right) 0
     = compute_line_height_above_baseline
         (layout plain_font "ab" 25 text_align.align_right) 0.
Proof.
  apply (text_behind_hard_break_ignored
           (layout plain_font (String "a" (String "b" (String newline "cde")))
              25 text_align.align_right)
           (layout plain_font "ab" 25 text_align.align_right)
           (list_ascii_of_string "ab")
           (newline :: list_ascii_of_string "cde") []);
    try reflexivity.
  - right. eexists. reflexivity.
  - left. reflexivity.
  - simpl. lia.
Defined.

Lemma leading_spaces_skipped_witness :
  compute_line_width (layout plain_font "a  bc" 25 text_align.align_right) 3
  = compute_line_width (layout plain_font "a  bc" 25 text_align.align_right) 1
  /\ compute_line_left (layout plain_font "a  bc" 25 text_align.align_right) 3
     = compute_line_left (layout plain_font "a  bc" 25 text_align.align_right)
         1
  /\ compute_line_height_above_baseline
       (layout plain_font "a  bc" 25 text_align.align_right) 3
     = compute_line_height_above_baseline
         (layout plain_font "a  bc" 25 text_align.align_right) 1.
Proof.
  apply (leading_spaces_skipped
           (layout plain_font "a  bc" 25 text_align.align_right) 1 2).
  run_facts.
Defined.

Lemma negative_box_witness :
  compute_line_width (layout plain_font "ab" (-5) text_align.align_right) 0
  = Fail postcond_violation
  /\ compute_line_left (layout plain_font "ab" (-5) text_align.align_right) 0
     = Fail postcond_violation
  /\ compute_line_height_above_baseline
       (layout plain_font "ab" (-5) text_align.align_right) 0 = Ok 0.
Proof.
  apply (negative_box (layout plain_font "ab" (-5) text_align.align_right) 0);
    run_facts.
Defined.

Lemma aligned_line_in_box_witness :
  exists w l,
    compute_line_width (layout plain_font "ab cde" 25 text_align.align_center)
      0 = Ok w
    /\ compute_line_left
         (layout plain_font "ab cde" 25 text_align.align_center) 0 = Ok l
    /\ 0 <= l
    /\ l + w <= 25
    /\ l <= 25 - (l + w) <= l + 1.
Proof.
  apply (aligned_line_in_box
           (layout plain_font "ab cde" 25 text_align.align_center) 0);
    run_facts.
Defined.

Lemma line_within_scanned_run_witness :
  exists n m,
    (n <= m <= 6)%nat
    /\ compute_line_width
         (layout (font_with_tall "c") "ab cde" 45 text_align.align_left) 0
       = Ok (advance_sum
               (layout (font_with_tall "c") "ab cde" 45 text_align.align_left)
               (firstn n (list_ascii_of_string "ab cde")))
    /\ compute_line_height_above_baseline
         (layout (font_with_tall "c") "ab cde" 45 text_align.align_left) 0
       = Ok (ascent_max
               (layout (font_with_tall "c") "ab cde" 45 text_align.align_left)
               (firstn m (list_ascii_of_string "ab cde"))).
Proof.
  destruct (line_within_scanned_run
              (layout (font_with_tall "c") "ab cde" 45 text_align.align_left)
              0)
    as (n & m & Hnm & Hw & Hh & _); [run_facts | run_facts |].
  exists n, m. auto.
Defined.

Lemma width_cut_at_space_witness :
  compute_line_width (layout plain_font "ab cde" 25 text_align.align_left) 0
  = Ok 20.
Proof.
  apply (width_cut_at_space
           (layout plain_font "ab cde" 25 text_align.align_left)
           [] [] (list_ascii_of_string "ab") [] (list_ascii_of_string "cde"));
    try (apply word_begins); try (apply word_ends); run_facts.
Defined.

Lemma width_word_wrap_witness :
  compute_line_width (layout plain_font "ab cde" 45 text_align.align_left) 0
  = Ok 20.
Proof.
  apply (width_word_wrap
           (layout plain_font "ab cde" 45 text_align.align_left)
           [] [] (list_ascii_of_string "ab") [space] (list_ascii_of_string "c")
           (list_ascii_of_string "e") "d"%char);
    try (apply word_begins); try (apply word_ends); run_facts.
Defined.

Lemma height_of_scanned_run_witness :
  compute_line_height_above_baseline
    (layout (font_with_tall "c") "ab cde" 45 text_align.align_left) 0
  = Ok 100.
Proof.
  apply (height_of_scanned_run
           (layout (font_with_tall "c") "ab cde" 45 text_align.align_left)
           [] [] (list_ascii_of_string "ab c") (list_ascii_of_string "de")).
  - reflexivity.
  - constructor.
  - right. do 2 eexists. split; [reflexivity|discriminate].
  - run_facts.
  - simpl. unfold advance_x. simpl. lia.
  - right. exists "d"%char, (list_ascii_of_string "e").
    split; [reflexivity|]. split; [discriminate|]. reflexivity.
Defined.

(** ** The width of the box and the length of the line *)

(** From locals with [0 <= result <= cand], the scan returns a width that is
    not below [result], and not below [cand] when no space was met yet. *)
Lemma width_of_rest_lower (t : text_layout) :
  advances_nonneg t ->
  forall rest result cand b,
    0 <= result <= cand ->
    result <= width_of_rest t rest result cand b
    /\ (b = false -> result = 0 -> cand <= width_of_rest t rest result cand b).
Proof.
  intros Hadv. induction rest as [|c rest IH]; intros result cand b Hr.
  - simpl. destruct b; split; intros; try discriminate; lia.
  - simpl. destruct (Ascii.eqb c newline).
    { destruct b; split; intros; try discriminate; lia. }
    pose proof (Hadv c) as Hc.
    destruct (cand + advance_x t c >? claw.x (m_size t)).
    + destruct (Ascii.eqb c space).
      * destruct b; split; intros; try discriminate; lia.
      * destruct (Z.eqb_spec result 0); split; intros; lia.
    + destruct (Ascii.eqb c space).
      * destruct b.
        -- destruct (IH result (cand + advance_x t c) true) as [H1 _]; [lia|].
           split; [exact H1|]. intros; discriminate.
        -- destruct (IH cand (cand + advance_x t c) true) as [H1 _]; [lia|].
           split; intros; lia.
      * destruct (IH result (cand + advance_x t c) false) as [H1 H2]; [lia|].
        split; [exact H1|]. intros Hb H0. specialize (H2 eq_refl H0). lia.
Qed.

Lemma width_of_rest_mono (t1 t2 : text_layout) :
  m_font t1 = m_font t2 ->
  claw.x (m_size t1) <= claw.x (m_size t2) ->
  advances_nonneg t1 ->
  forall rest result cand b,
    0 <= result <= cand ->
    width_of_rest t1 rest result cand b <= width_of_rest t2 rest result cand b.
Proof.
  intros Hfont Hbox Hadv.
  assert (Hadv2 : advances_nonneg t2).
  { intros c. specialize (Hadv c). unfold advance_x in *.
    rewrite <- Hfont. exact Hadv. }
  assert (Eadv : forall c, advance_x t2 c = advance_x t1 c).
  { intros c. unfold advance_x. rewrite Hfont. reflexivity. }
  induction rest as [|c rest IH]; intros result cand b Hr; simpl; [lia|].
  destruct (Ascii.eqb c newline); [lia|].
  rewrite Eadv. pose proof (Hadv c) as Hc.
  destruct (Z.gtb_spec (cand + advance_x t1 c) (claw.x (m_size t1)))
    as [Hover1|Hfit1];
    destruct (Z.gtb_spec (cand + advance_x t1 c) (claw.x (m_size t2)))
      as [Hover2|Hfit2]; try lia.
  - destruct (width_of_rest_lower t2 Hadv2 rest
                (if Ascii.eqb c space then if b then result else cand
                 else result)
                (cand + advance_x t1 c) (Ascii.eqb c space)) as [H1 H2].
    { destruct (Ascii.eqb c space); [destruct b|]; lia. }
    destruct (Ascii.eqb c space); [exact H1|].
    destruct (Z.eqb_spec result 0) as [E|E]; [|exact H1].
    specialize (H2 eq_refl E). lia.
  - apply IH. destruct (Ascii.eqb c space); [destruct b|]; lia.
Qed.

Lemma height_of_rest_mono (t1 t2 : text_layout) :
  m_font t1 = m_font t2 ->
  claw.x (m_size t1) <= claw.x (m_size t2) ->
  forall rest r1 r2 line_width,
    r1 <= r2 ->
    height_of_rest t1 rest r1 line_width <= height_of_rest t2 rest r2 line_width.
Proof.
  intros Hfont Hbox.
  assert (Eadv : forall c, advance_x t2 c = advance_x t1 c).
  { intros c. unfold advance_x. rewrite Hfont. reflexivity. }
  assert (Easc : forall c, glyph_ascent t2 c = glyph_ascent t1 c).
  { intros c. unfold glyph_ascent. rewrite Hfont. reflexivity. }
  induction rest as [|c rest IH]; intros r1 r2 lw Hr; simpl; [lia|].
  destruct (Ascii.eqb c newline); [lia|].
  rewrite Eadv, Easc.
  destruct (Z.gtb_spec (lw + advance_x t1 c) (claw.x (m_size t1)))
    as [Hover1|Hfit1];
    destruct (Z.gtb_spec (lw + advance_x t1 c) (claw.x (m_size t2)))
      as [Hover2|Hfit2]; try lia.
  - pose proof (height_of_rest_ge t2 rest (Z.max r2 (glyph_ascent t1 c))
                  (lw + advance_x t1 c)).
    lia.
  - apply IH. lia.
Qed.

(** X12. A wider box never gives a shorter line: for the same text, start
    index and font, without negative advances, the width returned for a box
    is not greater than the width returned for a wider box, and neither is
    the height above the baseline. *)
Theorem wider_box_longer_line (t1 t2 : text_layout) (start : nat) :
  m_font t1 = m_font t2 ->
  m_text t1 = m_text t2 ->
  box_nonneg t1 ->
  claw.x (m_size t1) <= claw.x (m_size t2) ->
  advances_nonneg t1 ->
  exists w1 w2 h1 h2,
    compute_line_width t1 start = Ok w1
    /\ compute_line_width t2 start = Ok w2
    /\ w1 <= w2
    /\ compute_line_height_above_baseline t1 start = Ok h1
    /\ compute_line_height_above_baseline t2 start = Ok h2
    /\ h1 <= h2.
Proof.
  intros Hfont Htext box1 Hbox Hadv.
  assert (Hadv2 : advances_nonneg t2).
  { intros c. specialize (Hadv c). unfold advance_x in *.
    rewrite <- Hfont. exact Hadv. }
  assert (box2 : box_nonneg t2) by (unfold box_nonneg in *; lia).
  assert (Eline : line_from t2 start = line_from t1 start).
  { unfold line_from, skip_spaces, chars. rewrite Htext. reflexivity. }
  destruct (compute_line_width_in_box_fuel t1 box1 Hadv (enough_fuel t1) start)
    as (w1 & Hw1 & _); [unfold enough_fuel; lia|].
  destruct (compute_line_width_in_box_fuel t2 box2 Hadv2 (enough_fuel t2) start)
    as (w2 & Hw2 & _); [unfold enough_fuel; lia|].
  fold (compute_line_width t1 start) in Hw1.
  fold (compute_line_width t2 start) in Hw2.
  exists w1, w2. do 2 eexists.
  split; [exact Hw1|]. split; [exact Hw2|]. split.
  - rewrite compute_line_width_rest in Hw1, Hw2. rewrite Eline in Hw2.
    destruct (checked_width_cases t1
                (width_of_rest t1 (line_from t1 start) 0 0 false))
      as [[_ E1] | [_ E1]]; rewrite E1 in Hw1; [|discriminate].
    destruct (checked_width_cases t2
                (width_of_rest t2 (line_from t1 start) 0 0 false))
      as [[_ E2] | [_ E2]]; rewrite E2 in Hw2; [|discriminate].
    injection Hw1 as <-. injection Hw2 as <-.
    apply width_of_rest_mono; auto. lia.
  - rewrite !compute_line_height_rest, Eline.
    split; [reflexivity|]. split; [reflexivity|].
    apply height_of_rest_mono; auto. lia.
Qed.

Lemma drop_spaces_lead (lead tail : list ascii) :
  Forall is_space lead ->
  line_start tail ->
  drop_spaces (lead ++ tail) = tail.
Proof.
  intros Hlead Htail. rewrite drop_spaces_app by exact Htail.
  induction Hlead as [|a lead -> _ IH]; [reflexivity|]. exact IH.
Qed.

(** X13. When the first character of the line fits in the box, the line
    holds it: the width returned is not below its advance, and so is not 0
    when that advance is not. *)
Theorem first_character_counts (t : text_layout)
  (skipped lead post : list ascii) (c : ascii) :
  chars t = skipped ++ lead ++ c :: post ->
  Forall is_space lead ->
  c <> space ->
  c <> newline ->
  advances_nonneg t ->
  advance_x t c <= claw.x (m_size t) ->
  exists w,
    compute_line_width t (List.length skipped) = Ok w /\ advance_x t c <= w.
Proof.
  intros H Hlead Hsp Hnl Hadv Hfit.
  pose proof (Hadv c) as Hc.
  assert (box : box_nonneg t) by (unfold box_nonneg; lia).
  destruct (compute_line_width_in_box_fuel t box Hadv (enough_fuel t)
              (List.length skipped))
    as (w & Hw & _); [unfold enough_fuel; lia|].
  fold (compute_line_width t (List.length skipped)) in Hw.
  exists w. split; [exact Hw|].
  rewrite compute_line_width_rest, line_from_drop, H in Hw.
  replace (List.length skipped) with (List.length skipped + 0)%nat in Hw
    by lia.
  rewrite skipn_past in Hw. simpl skipn in Hw.
  rewrite drop_spaces_lead in Hw; auto; [|right; eauto].
  destruct (checked_width_cases t (width_of_rest t (c :: post) 0 0 false))
    as [[_ E] | [_ E]]; rewrite E in Hw; [|discriminate].
  injection Hw as <-. simpl.
  apply Ascii.eqb_neq in Hsp, Hnl. rewrite Hnl, Hsp.
  destruct (Z.gtb_spec (advance_x t c) (claw.x (m_size t))); [lia|].
  destruct (width_of_rest_lower t Hadv post 0 (advance_x t c) false)
    as [_ H2]; [lia|].
  specialize (H2 eq_refl eq_refl). lia.
Qed.

Lemma wider_box_longer_line_witness :
  exists w1 w2 h1 h2,
    compute_line_width (layout plain_font "ab cde" 25 text_align.align_left) 0
    = Ok w1
    /\ compute_line_width (layout plain_font "ab cde" 60 text_align.align_left)
         0 = Ok w2
    /\ w1 <= w2
    /\ compute_line_height_above_baseline
         (layout plain_font "ab cde" 25 text_align.align_left) 0 = Ok h1
    /\ compute_line_height_above_baseline
         (layout plain_font "ab cde" 60 text_align.align_left) 0 = Ok h2
    /\ h1 <= h2.
Proof.
  apply (wider_box_longer_line
           (layout plain_font "ab cde" 25 text_align.align_left)
           (layout plain_font "ab cde" 60 text_align.align_left) 0);
    run_facts.
Defined.

Lemma first_character_counts_witness :
  exists w,
    compute_line_width (layout plain_font " abcdef" 25 text_align.align_left) 0
    = Ok w
    /\ 10 <= w.
Proof.
  apply (first_character_counts
           (layout plain_font " abcdef" 25 text_align.align_left)
           [] [space] (list_ascii_of_string "bcdef") "a"%char);
    run_facts.
Defined.
